(** * GDP / trade-balance correlation dashboard: the data pipeline of [main.py]

    The development embeds the statements of
    [src/gdp_trade_balance_correlation/main.py] that fetch, aggregate, join,
    correlate and regress the two indicators, and proves the properties of
    the specification against them.

    Conventions of the embedding.
    - A pandas frame is the list of its rows, in row order.
    - The pipeline is embedded over the real numbers: a Python [float] is a
      real number or [NaN], and arithmetic is exact (no rounding). What the
      pipeline computes is stated on this embedding up to rounding.
    - Where the last digits matter, the loop of [DataFrame.corr] is also
      embedded over binary64 floats ([nancorr64]), operation by operation.
    - Python exceptions are values of [exn]; a statement that raises stops the
      run, and the events emitted before it stay in the trace.
    - The remote provider ([dbnomics.fetch_series]) is a parameter of the
      pipeline: a function from series codes to outcomes. *)

From Stdlib Require Import PrimFloat.
From Stdlib Require Import Reals Lra Psatz List String Bool Arith Lia Permutation.
From Stdlib Require Import Sorted OrderedTypeEx.
From Stdlib Require Uint63.
Import ListNotations.
Open Scope string_scope.
Open Scope list_scope.
Open Scope R_scope.

(** ** Data model *)

(** A float as pandas and numpy show it. *)
Inductive pyfloat : Type :=
| Fin (r : R)
| NaN.

(** One row of a prepared indicator frame: the [Country] tag, the [Date]
    (the provider's [original_period]) and the value column. *)
Record Observation : Type := mkObs {
  Country : string;
  Date : string;
  Value : R
}.

Definition DataFrame := list Observation.

(** What [fetch_series] gives for one series code: a frame of
    (period, value) rows, possibly empty, or an exception. *)
Inductive fetched : Type :=
| Frame (rows : list (string * R))
| FetchFails.

(** The exceptions the pipeline can end with. *)
Inductive exn : Type :=
| DataSourceError (series_code : string)
| ValueError (msg : string)
| KeyError (label : string)
| IndexError (msg : string)
| IndentationError (lineno : nat) (after : string) (header_lineno : nat).

(** ** Effects: a trace of events and an exception *)

Record OLSResults : Type := mkOLS {
  params_const : option R;
  params_x : R;
  rsquared : pyfloat;
  nobs : nat
}.

Inductive event : Type :=
| Fetch (series_code : string)
| StWarning (msg : string)
| StPlotlyChart (title : string) (df : DataFrame)
| StWriteCorr (country : string) (corr_value : pyfloat)
| StWriteSummary (country : string) (model : OLSResults)
| StWriteSources.

Definition M (A : Type) : Type := list event -> list event * (exn + A).

Definition ret {A} (a : A) : M A := fun tr => (tr, inr a).

Definition bind {A B} (m : M A) (k : A -> M B) : M B :=
  fun tr =>
    match m tr with
    | (tr', inl e) => (tr', inl e)
    | (tr', inr a) => k a tr'
    end.

Definition raise {A} (e : exn) : M A := fun tr => (tr, inl e).

Definition emit (ev : event) : M unit := fun tr => (tr ++ [ev], inr tt).

Definition run {A} (m : M A) : list event * (exn + A) := m [].

Declare Scope pipeline_scope.
Delimit Scope pipeline_scope with pipeline.
Notation "x <- m ;; k" := (bind m (fun x => k))
  (at level 61, m at next level, right associativity) : pipeline_scope.
Notation "m ;; k" := (bind m (fun _ => k))
  (at level 61, right associativity) : pipeline_scope.
Open Scope pipeline_scope.

(** [for x in xs: body(x)] *)
Fixpoint for_each {A} (xs : list A) (body : A -> M unit) : M unit :=
  match xs with
  | [] => ret tt
  | x :: rest => body x ;; for_each rest body
  end.

(** ** SeriesAggregator: [fetch_and_prepare_data] *)

Section Aggregator.

Variable fetch_series : string -> fetched.

(** [df.rename(...)] then [df["Country"] = country]. *)
Definition tag (country : string) (rows : list (string * R)) : DataFrame :=
  map (fun pv => mkObs country (fst pv) (snd pv)) rows.

(** [df.empty] *)
Definition empty {A} (df : list A) : bool :=
  match df with [] => true | _ :: _ => false end.

(** [pd.concat(dfs)]: raises on an empty list of frames. *)
Definition pd_concat (dfs : list DataFrame) : M DataFrame :=
  match dfs with
  | [] => raise (ValueError "No objects to concatenate")
  | _ :: _ => ret (List.concat dfs)
  end.

(** The call [fetch_series(series_code)]. *)
Definition call_fetch (series_code : string) : M (list (string * R)) :=
  emit (Fetch series_code) ;;
  match fetch_series series_code with
  | Frame rows => ret rows
  | FetchFails => raise (DataSourceError series_code)
  end.

(** The loop over [series_dict.items()], with [dfs] as accumulator. *)
Fixpoint fetch_loop (items : list (string * string)) (dfs : list DataFrame)
  : M (list DataFrame) :=
  match items with
  | [] => ret dfs
  | (country, series_code) :: rest =>
      df <- call_fetch series_code ;;
      if negb (empty df)
      then fetch_loop rest (dfs ++ [tag country df])
      else fetch_loop rest dfs
  end.

Definition fetch_and_prepare_data (series_dict : list (string * string))
  (col_name : string) : M DataFrame :=
  dfs <- fetch_loop series_dict [] ;;
  pd_concat dfs.

(** The frames the loop keeps: the tagged rows of the entities whose fetch
    is not empty. *)
Definition kept_frames (items : list (string * string)) : list DataFrame :=
  flat_map
    (fun item =>
       match fetch_series (snd item) with
       | Frame rows => if empty rows then [] else [tag (fst item) rows]
       | FetchFails => []
       end)
    items.

Definition no_failure (items : list (string * string)) : Prop :=
  forall item, In item items -> fetch_series (snd item) <> FetchFails.

End Aggregator.

(** ** CorrelationEngine: the merge, the group-by and [corr] *)

(** A row of [correlation_df]: the key columns and the two value columns,
    [jx] for "GDP Growth Rate (%)" and [jy] for "Trade Balance (% of GDP)". *)
Record JoinedRecord : Type := mkJoined {
  jCountry : string;
  jDate : string;
  jx : R;
  jy : R
}.

Definition same_key (a b : Observation) : bool :=
  (Country a =? Country b)%string && (Date a =? Date b)%string.

(** [pd.merge(left, right, on=["Country", "Date"])]: the default inner join.
    Every left row is paired with every right row of the same key, in the
    order of the left rows. *)
Definition pd_merge (left right : DataFrame) : list JoinedRecord :=
  flat_map
    (fun a =>
       map (fun b => mkJoined (Country a) (Date a) (Value a) (Value b))
           (filter (same_key a) right))
    left.

(** The two value columns of [correlation_df]. *)
Inductive column : Type :=
| GDP_Growth_Rate
| Trade_Balance.

Definition label (c : column) : string :=
  match c with
  | GDP_Growth_Rate => "GDP Growth Rate (%)"
  | Trade_Balance => "Trade Balance (% of GDP)"
  end.

Definition cell (c : column) (r : JoinedRecord) : R :=
  match c with
  | GDP_Growth_Rate => jx r
  | Trade_Balance => jy r
  end.

(** Group keys of [groupby("Country")]: the distinct countries, sorted. *)
Fixpoint insert_key (k : string) (ks : list string) : list string :=
  match ks with
  | [] => [k]
  | k' :: rest =>
      match String.compare k k' with
      | Lt => k :: ks
      | Eq => ks
      | Gt => k' :: insert_key k rest
      end
  end.

Definition group_keys (df : list JoinedRecord) : list string :=
  fold_right insert_key [] (map jCountry df).

(** The rows of one group; also [correlation_df[correlation_df["Country"] == country]]. *)
Definition get_group (country : string) (df : list JoinedRecord)
  : list JoinedRecord :=
  filter (fun r => (jCountry r =? country)%string) df.

(** Sums over a column. *)
Definition Rsum (l : list R) : R := fold_right Rplus 0 l.

Definition mean (l : list R) : R := Rsum l / INR (List.length l).

(** Sum of squared deviations from the mean, and of products of deviations. *)
Definition ssqdm (l : list R) : R :=
  Rsum (map (fun v => (v - mean l) * (v - mean l)) l).

Definition covxy (ps : list (R * R)) : R :=
  Rsum (map (fun p => (fst p - mean (map fst ps)) * (snd p - mean (map snd ps)))
            ps).

(** Pearson correlation of two columns given row by row, as [DataFrame.corr]
    computes each entry ([min_periods = 1]): [NaN] when the divisor is zero.
    This is the value in exact arithmetic; the binary64 loop is [nancorr64]
    below. *)
Definition nancorr (ps : list (R * R)) : pyfloat :=
  if (List.length ps <? 1)%nat then NaN
  else
    let divisor := sqrt (ssqdm (map fst ps) * ssqdm (map snd ps)) in
    if Req_dec_T divisor 0 then NaN else Fin (covxy ps / divisor).

(** *** The loop of [DataFrame.corr] in binary64

    One entry of the correlation matrix is computed by a single pass over
    the rows (Welford's method), with the running count, the two running
    means, the two running sums of squared deviations and the running sum of
    products. *)
Record welford : Type := mkWelford {
  w_nobs : nat;
  w_meanx : float;
  w_meany : float;
  w_ssqdm_x : float;
  w_ssqdm_y : float;
  w_covxy : float
}.

Definition welford_init : welford := mkWelford 0 0 0 0 0 0.

(** The integer count as a double. *)
Definition float_of_nat (n : nat) : float :=
  PrimFloat.of_uint63 (Uint63.of_Z (Z.of_nat n)).

(** The body of the loop for one row [(vx, vy)]:
    [nobs += 1; dx = vx - meanx; dy = vy - meany;
     meanx += 1. / nobs * dx; meany += 1. / nobs * dy;
     ssqdm_x += (vx - meanx) * dx; ssqdm_y += (vy - meany) * dy;
     covxy += (vx - meanx) * dy]. *)
Definition welford_step (w : welford) (p : float * float) : welford :=
  let vx := fst p in
  let vy := snd p in
  let nobs := S (w_nobs w) in
  let dx := (vx - w_meanx w)%float in
  let dy := (vy - w_meany w)%float in
  let meanx := (w_meanx w + 1 / float_of_nat nobs * dx)%float in
  let meany := (w_meany w + 1 / float_of_nat nobs * dy)%float in
  mkWelford nobs meanx meany
            (w_ssqdm_x w + (vx - meanx) * dx)%float
            (w_ssqdm_y w + (vy - meany) * dy)%float
            (w_covxy w + (vx - meanx) * dy)%float.

Definition welford_loop (ps : list (float * float)) : welford :=
  fold_left welford_step ps welford_init.

(** The entry: nan below [min_periods] and for a zero divisor, else
    [covxy / sqrt(ssqdm_x * ssqdm_y)]. *)
Definition nancorr64 (ps : list (float * float)) : float :=
  let w := welford_loop ps in
  if (w_nobs w <? 1)%nat then nan
  else
    let divisor := PrimFloat.sqrt (w_ssqdm_x w * w_ssqdm_y w)%float in
    if (divisor =? 0)%float then nan else (w_covxy w / divisor)%float.

(** A row with its two columns exchanged. *)
Definition swap64 (p : float * float) : float * float := (snd p, fst p).

(** Two states of the loop that agree on the count and have the two means
    and the two sums of squared deviations exchanged. *)
Definition welford_mirror (w w' : welford) : Prop :=
  w_nobs w' = w_nobs w
  /\ w_meanx w' = w_meany w
  /\ w_meany w' = w_meanx w
  /\ w_ssqdm_x w' = w_ssqdm_y w
  /\ w_ssqdm_y w' = w_ssqdm_x w.

(** A column against itself: the quotient the loop returns, in terms of the
    sum of squared deviations it accumulates. *)
Definition self_quotient (xs : list float) : float :=
  let w := welford_loop (map (fun v => (v, v)) xs) in
  let s := w_ssqdm_x w in
  if (w_nobs w <? 1)%nat then nan
  else if (PrimFloat.sqrt (s * s) =? 0)%float then nan
       else (s / PrimFloat.sqrt (s * s))%float.

(** The frame that [groupby("Country")[[gdp, tb]].corr()] returns has a row
    per (country, column) and a column per value column. *)
Record CorrRow : Type := mkCorrRow {
  ix_country : string;
  ix_column : column;
  at_gdp : pyfloat;
  at_tb : pyfloat
}.

Definition column_pairs (a b : column) (g : list JoinedRecord) : list (R * R) :=
  map (fun r => (cell a r, cell b r)) g.

Definition corr_matrix (country : string) (g : list JoinedRecord)
  : list CorrRow :=
  map (fun a => mkCorrRow country a
                  (nancorr (column_pairs a GDP_Growth_Rate g))
                  (nancorr (column_pairs a Trade_Balance g)))
      [GDP_Growth_Rate; Trade_Balance].

Definition groupby_corr (df : list JoinedRecord) : list CorrRow :=
  flat_map (fun c => corr_matrix c (get_group c df)) (group_keys df).

(** [.iloc[0::2]]: the rows at even positions. *)
Fixpoint iloc_0_2 {A} (l : list A) : list A :=
  match l with
  | [] => []
  | a :: rest =>
      a :: match rest with
           | [] => []
           | _ :: rest' => iloc_0_2 rest'
           end
  end.

(** A series indexed by (country, column). *)
Definition Series := list ((string * column) * pyfloat).

(** [...["Trade Balance (% of GDP)"]] *)
Definition select_tb (rows : list CorrRow) : Series :=
  map (fun r => ((ix_country r, ix_column r), at_tb r)) rows.

(** The value [correlations] of [main]. *)
Definition correlations_of (correlation_df : list JoinedRecord) : Series :=
  select_tb (iloc_0_2 (groupby_corr correlation_df)).

(** [correlations.loc[country]]: the entries of that country, [KeyError] when
    there is none. *)
Definition loc (s : Series) (country : string) : M (list (column * pyfloat)) :=
  match filter (fun e => (fst (fst e) =? country)%string) s with
  | [] => raise (KeyError country)
  | sel => ret (map (fun e => (snd (fst e), snd e)) sel)
  end.

(** [.iloc[0]] on a series. *)
Definition iloc0 (s : list (column * pyfloat)) : M pyfloat :=
  match s with
  | [] => raise (IndexError "single positional indexer is out-of-bounds")
  | e :: _ => ret (snd e)
  end.

(** [correlations.loc[country].iloc[0]] *)
Definition corr_value_of (s : Series) (country : string) : M pyfloat :=
  sub <- loc s country ;;
  iloc0 sub.

(** The correlation of two prepared frames, as [main] computes it. *)
Definition correlate (A B : DataFrame) : Series :=
  correlations_of (pd_merge A B).

(** ** RegressionEngine: [sm.add_constant] and [sm.OLS(y, X).fit()] *)

Definition Reqb (a b : R) : bool := if Req_dec_T a b then true else false.

(** The design matrix handed to [OLS]: the column [x] with a leading column
    of ones, or [x] alone. *)
Inductive design : Type :=
| WithConst (xs : list R)
| Alone (xs : list R).

(** [add_constant] runs with [has_constant='skip']: a column that is already
    constant and not zero ([np.ptp(s) == 0.0 and np.any(s != 0.0)]) counts as
    the constant and no column of ones is added. On an empty column the test
    is false. *)
Definition is_nonzero_constant (xs : list R) : bool :=
  match xs with
  | [] => false
  | v :: rest => forallb (Reqb v) rest && existsb (fun w => negb (Reqb w 0)) xs
  end.

Definition add_constant (X : list R) : design :=
  if is_nonzero_constant X then Alone X else WithConst X.

(** Fitted value and sums of squares of a line [const + slope * x]. *)
Definition predict (const slope x : R) : R := const + slope * x.

Definition ssr (const slope : R) (rows : list (R * R)) : R :=
  Rsum (map (fun p => (snd p - predict const slope (fst p))
                      * (snd p - predict const slope (fst p))) rows).

Definition centered_tss (y : list R) : R := ssqdm y.

(** [rsquared = 1 - ssr / centered_tss]; the quotient of zero by zero is nan. *)
Definition rsquared_of (ssr_ tss : R) : pyfloat :=
  if Req_dec_T tss 0 then NaN else Fin (1 - ssr_ / tss).

Definition Sx (rows : list (R * R)) : R := Rsum (map fst rows).
Definition Sy (rows : list (R * R)) : R := Rsum (map snd rows).
Definition Sxx (rows : list (R * R)) : R :=
  Rsum (map (fun p => fst p * fst p) rows).
Definition Sxy (rows : list (R * R)) : R :=
  Rsum (map (fun p => fst p * snd p) rows).

(** Determinant of the normal equations of the design with a constant. *)
Definition normal_det (rows : list (R * R)) : R :=
  INR (List.length rows) * Sxx rows - Sx rows * Sx rows.

(** The solution of the normal equations
    [n * const + Sx * slope = Sy] and [Sx * const + Sxx * slope = Sxy]. *)
Definition normal_const (rows : list (R * R)) : R :=
  (Sxx rows * Sy rows - Sx rows * Sxy rows) / normal_det rows.

Definition normal_slope (rows : list (R * R)) : R :=
  (INR (List.length rows) * Sxy rows - Sx rows * Sy rows) / normal_det rows.

(** [OLS(y, X).fit()]: the parameters are [pinv(X) y].
    - No observation: the model constructor raises.
    - Design with a constant, of full rank: the solution of the normal
      equations. Of deficient rank ([x] constant, equal to [c]): the
      least-squares solution of least norm, [mean(y) / (1 + c*c) * (1, c)].
    - Column [x] alone: [sum(x*y) / sum(x*x)], and no [const] parameter. *)
Definition OLS_fit (y : list R) (X : design) : M OLSResults :=
  match X with
  | WithConst xs =>
      let rows := combine xs y in
      if (List.length rows =? 0)%nat
      then raise (ValueError
        "zero-size array to reduction operation maximum which has no identity")
      else
        let c := hd 0 xs in
        let const :=
          if Req_dec_T (normal_det rows) 0
          then mean y / (1 + c * c)
          else normal_const rows in
        let slope :=
          if Req_dec_T (normal_det rows) 0
          then c * mean y / (1 + c * c)
          else normal_slope rows in
        ret (mkOLS (Some const) slope
                   (rsquared_of (ssr const slope rows) (centered_tss y))
                   (List.length rows))
  | Alone xs =>
      let rows := combine xs y in
      if (List.length rows =? 0)%nat
      then raise (ValueError
        "zero-size array to reduction operation maximum which has no identity")
      else
        let slope :=
          if Req_dec_T (Sxx rows) 0 then 0 else Sxy rows / Sxx rows in
        ret (mkOLS None slope
                   (rsquared_of (ssr 0 slope rows) (centered_tss y))
                   (List.length rows))
  end.

(** The body of the loop of the regression tab for one country, up to the
    fitted model. *)
Definition regress_country (correlation_df : list JoinedRecord)
  (country : string) : M OLSResults :=
  let df_country := get_group country correlation_df in
  let X := map jx df_country in
  let y := map jy df_country in
  let X := add_constant X in
  OLS_fit y X.

(** ** The page: [main] *)

Definition gdp_series : list (string * string) :=
  [ ("USA", "IMF/WEO:2024-04/USA.NGDP_RPCH.pcent_change");
    ("China", "IMF/WEO:2024-04/CHN.NGDP_RPCH.pcent_change");
    ("Japan", "IMF/WEO:2024-04/JPN.NGDP_RPCH.pcent_change");
    ("UK", "IMF/WEO:2024-04/GBR.NGDP_RPCH.pcent_change");
    ("France", "IMF/WEO:2024-04/FRA.NGDP_RPCH.pcent_change");
    ("Germany", "IMF/WEO:2024-04/DEU.NGDP_RPCH.pcent_change") ].

Definition tb_series : list (string * string) :=
  [ ("USA", "CEPII/CHELEM-TRADE-INDIC/USA.BALGDP.TOTAL.TTGS");
    ("China", "CEPII/CHELEM-TRADE-INDIC/CHN.BALGDP.TOTAL.TTGS");
    ("Japan", "CEPII/CHELEM-TRADE-INDIC/JPN.BALGDP.TOTAL.TTGS");
    ("UK", "CEPII/CHELEM-TRADE-INDIC/GBR.BALGDP.TOTAL.TTGS");
    ("France", "CEPII/CHELEM-TRADE-INDIC/FRA.BALGDP.TOTAL.TTGS");
    ("Germany", "CEPII/CHELEM-TRADE-INDIC/DEU.BALGDP.TOTAL.TTGS") ].

(** [d[k]] on a dict. *)
Fixpoint dict_get (d : list (string * string)) (k : string) : M string :=
  match d with
  | [] => raise (KeyError k)
  | (k', v) :: rest => if (k' =? k)%string then ret v else dict_get rest k
  end.

(** [d[k] = v]: a key keeps the position of its first insertion. *)
Fixpoint dict_set (d : list (string * string)) (k v : string)
  : list (string * string) :=
  match d with
  | [] => [(k, v)]
  | (k', v') :: rest =>
      if (k' =? k)%string then (k', v) :: rest else (k', v') :: dict_set rest k v
  end.

(** [{country: series[country] for country in selected_countries}] *)
Fixpoint dict_comprehension (series : list (string * string))
  (selected_countries : list string) (acc : list (string * string))
  : M (list (string * string)) :=
  match selected_countries with
  | [] => ret acc
  | country :: rest =>
      code <- dict_get series country ;;
      dict_comprehension series rest (dict_set acc country code)
  end.

Section Main.

Variable fetch_series : string -> fetched.

(** The loop of the correlation tab. *)
Definition write_correlations (correlations : Series)
  (selected_countries : list string) : M unit :=
  for_each selected_countries
    (fun country =>
       corr_value <- corr_value_of correlations country ;;
       emit (StWriteCorr country corr_value)).

(** The loop of the regression tab. *)
Definition write_regressions (correlation_df : list JoinedRecord)
  (selected_countries : list string) : M unit :=
  for_each selected_countries
    (fun country =>
       model <- regress_country correlation_df country ;;
       emit (StWriteSummary country model)).

Definition fetch_both (selected_countries : list string)
  : M (DataFrame * DataFrame) :=
  gdp_codes <- dict_comprehension gdp_series selected_countries [] ;;
  df_gdp_all <- fetch_and_prepare_data fetch_series gdp_codes
                  (label GDP_Growth_Rate) ;;
  tb_codes <- dict_comprehension tb_series selected_countries [] ;;
  df_tb_all <- fetch_and_prepare_data fetch_series tb_codes
                 (label Trade_Balance) ;;
  ret (df_gdp_all, df_tb_all).

(** The statements of [main] from the menu on. The statements after the
    header [if selected == "Sources":] stand at the level of the header,
    so they are not under the condition. *)
Definition main (selected : string) (selected_countries : list string)
  : M unit :=
  (if (selected =? "GDP Growth Rate & Trade Balance")%string
   then
     dfs <- fetch_both selected_countries ;;
     if empty (fst dfs) || empty (snd dfs)
     then emit (StWarning "No data available for the selected countries.")
     else
       emit (StPlotlyChart "GDP Growth Rate Over Time" (fst dfs)) ;;
       emit (StPlotlyChart "Trade Balance Over Time" (snd dfs))
   else ret tt) ;;
  (if (selected =? "Regression Analysis")%string
   then
     dfs <- fetch_both selected_countries ;;
     let correlation_df := pd_merge (fst dfs) (snd dfs) in
     let correlations := correlations_of correlation_df in
     write_correlations correlations selected_countries ;;
     write_regressions correlation_df selected_countries
   else ret tt) ;;
  (if (selected =? "Sources")%string then ret tt else ret tt) ;;
  emit StWriteSources.

End Main.

(** ** The module as the interpreter reads it: logical lines and blocks *)

(** A logical line of the file: the number of its first physical line, the
    column of its first token, and whether it is a simple statement or the
    header of a compound statement (it ends in a colon and its suite follows
    on the next lines). Blank lines, comment lines and continuation lines
    inside brackets are not logical lines. *)
Inductive line_kind : Type :=
| Simple
| Header (what : string).

Record logical_line : Type := mkLine {
  lineno : nat;
  indent : nat;
  kind : line_kind
}.

Definition header_of (l : logical_line) : option (string * nat) :=
  match kind l with
  | Simple => None
  | Header what => Some (what, lineno l)
  end.

(** Pop the indentation stack down to a column. *)
Fixpoint dedent_to (col : nat) (stack : list nat) : list nat :=
  match stack with
  | [] => []
  | top :: below =>
      if (col <? top)%nat then dedent_to col below else stack
  end.

(** The block structure check of the tokenizer and parser: the line after a
    header must be indented more than the current block, a line that is not
    after a header must not be, and a dedent must return to an open block.
    [pending] is the header whose suite is awaited. The result is the first
    error, if any. *)
Fixpoint check_blocks (stack : list nat) (pending : option (string * nat))
  (lines : list logical_line) : option exn :=
  match lines with
  | [] =>
      match pending with
      | Some (what, hl) => Some (IndentationError (S hl) what hl)
      | None => None
      end
  | l :: rest =>
      let top := hd 0%nat stack in
      match pending with
      | Some (what, hl) =>
          if (top <? indent l)%nat
          then check_blocks (indent l :: stack) (header_of l) rest
          else Some (IndentationError (lineno l) what hl)
      | None =>
          if (top <? indent l)%nat
          then Some (IndentationError (lineno l) "unexpected indent" 0)
          else
            let stack' := dedent_to (indent l) stack in
            if (hd 0%nat stack' =? indent l)%nat
            then check_blocks stack' (header_of l) rest
            else Some (IndentationError (lineno l)
                         "unindent does not match any outer indentation level" 0)
      end
  end.

Definition python_parse (src : list logical_line) : option exn :=
  check_blocks [0%nat] None src.

Definition S_ (n i : nat) : logical_line := mkLine n i Simple.
Definition H_ (n i : nat) (what : string) : logical_line :=
  mkLine n i (Header what).

Definition def_ := "function definition".
Definition if_ := "'if' statement".
Definition else_ := "'else' statement".
Definition for_ := "'for' statement".
Definition with_ := "'with' statement".

(** The logical lines of [main.py]. *)
Definition main_py : list logical_line :=
  [ S_ 1 0; S_ 3 0; S_ 4 0; S_ 5 0; S_ 6 0; S_ 7 0; S_ 8 0; S_ 9 0;
    H_ 12 0 def_;
      S_ 14 4; S_ 17 4; S_ 27 4;
      H_ 37 4 def_;
        S_ 38 8;
        H_ 39 8 for_;
          S_ 40 12;
          H_ 41 12 if_;
            S_ 42 16; S_ 45 16; S_ 46 16;
        S_ 47 8;
      S_ 50 4; S_ 51 4; S_ 55 4; S_ 56 4;
      H_ 58 4 def_;
        H_ 59 8 with_;
          S_ 60 12;
      S_ 62 4; S_ 64 4; S_ 81 4;
      H_ 83 4 with_;
        S_ 84 8;
      H_ 97 4 if_;
        S_ 98 8; S_ 105 8; S_ 111 8;
        H_ 117 8 if_;
          S_ 118 12;
        H_ 119 8 else_;
          S_ 120 12; S_ 121 12; S_ 125 12; S_ 140 12; S_ 144 12; S_ 160 12;
          S_ 162 12; S_ 163 12; S_ 167 12; S_ 182 12; S_ 186 12; S_ 202 12;
      H_ 203 4 if_;
        S_ 204 8; S_ 209 8;
        H_ 212 8 with_;
          S_ 213 12; S_ 218 12; S_ 223 12; S_ 226 12; S_ 234 12; S_ 235 12;
          H_ 239 12 for_;
            S_ 240 16; S_ 243 16;
          S_ 244 12; S_ 248 12;
        H_ 262 8 with_;
          S_ 263 12; S_ 266 12; S_ 270 12;
          H_ 274 12 for_;
            S_ 275 16; S_ 276 16; S_ 277 16; S_ 279 16; S_ 280 16;
            S_ 283 16; S_ 284 16;
        H_ 285 8 with_;
          S_ 286 12;
      H_ 335 4 if_;
      S_ 336 4; S_ 337 4; S_ 342 4; S_ 343 4;
    H_ 347 0 if_;
      S_ 348 4 ].

(** Running a module: the file is parsed as a whole first; its statements
    run only when it parses. *)
Definition python_run (src : list logical_line) (body : M unit) : M unit :=
  match python_parse src with
  | Some e => raise e
  | None => body
  end.

(** The same file with the statements of lines 336 to 346 moved under the
    header of line 335. *)
Definition main_py_indented : list logical_line :=
  map (fun l =>
         if ((336 <=? lineno l) && (lineno l <=? 346))%nat
         then mkLine (lineno l) 8 (kind l)
         else l)
      main_py.

(** ** Notions used in the statements *)

(** The join key of a row. *)
Definition key (o : Observation) : string * string := (Country o, Date o).

Definition jkey (r : JoinedRecord) : string * string := (jCountry r, jDate r).

(** The same joined row with the two indicators in the other order. *)
Definition swap_roles (r : JoinedRecord) : JoinedRecord :=
  mkJoined (jCountry r) (jDate r) (jy r) (jx r).

Definition swap_pair (p : R * R) : R * R := (snd p, fst p).

(** The joined row of two rows, read with the right frame first. *)
Definition swapped_row (a b : Observation) : list JoinedRecord :=
  if same_key a b
  then [mkJoined (Country a) (Date a) (Value b) (Value a)]
  else [].

(** The countries a correlation series has an entry for. *)
Definition entities (s : Series) : list string :=
  map (fun e => fst (fst e)) s.

(** The rows of one country in the join of two frames. *)
Definition joined_group (A B : DataFrame) (country : string)
  : list JoinedRecord :=
  get_group country (pd_merge A B).

(** Sample covariance and variance (divisor [n - 1]). *)
Definition covariance (ps : list (R * R)) : R :=
  covxy ps / (INR (List.length ps) - 1).

Definition variance (l : list R) : R :=
  ssqdm l / (INR (List.length l) - 1).

Definition Syy (rows : list (R * R)) : R :=
  Rsum (map (fun p => snd p * snd p) rows).

(** The rows (x, y) of a group, and the intercept a fitted model predicts
    with: its [const] parameter, or none. *)
Definition xy_rows (g : list JoinedRecord) : list (R * R) :=
  column_pairs GDP_Growth_Rate Trade_Balance g.

Definition intercept_of (model : OLSResults) : R :=
  match params_const model with
  | Some c => c
  | None => 0
  end.

(** Events of the provider, and events other than the warning of the first
    page. *)
Definition is_fetch (ev : event) : Prop :=
  match ev with
  | Fetch _ => True
  | _ => False
  end.

Definition no_warning (ev : event) : Prop :=
  match ev with
  | StWarning _ => False
  | _ => True
  end.

(** A computation that adds no warning to a trace without one. *)
Definition quiet {A} (m : M A) : Prop :=
  forall tr, Forall no_warning tr -> Forall no_warning (fst (m tr)).

(** A computation that leaves the trace as it is. *)
Definition silent {A} (m : M A) : Prop := forall tr, fst (m tr) = tr.

(** The order of the group keys. *)
Definition string_lt (a b : string) : Prop := String.compare a b = Lt.

(** The model that the fit of full rank reports for the rows of a group. *)
Definition ols_model (rows : list (R * R)) : OLSResults :=
  mkOLS (Some (normal_const rows)) (normal_slope rows)
        (rsquared_of (ssr (normal_const rows) (normal_slope rows) rows)
                     (centered_tss (map snd rows)))
        (List.length rows).

(** ** Example inputs *)

(** The two indicators of the end-to-end example of the specification:
    entity A is observed in 2020 and 2021 by both, entity B in 2020 by the
    first indicator only. *)
Definition indicator_1 : DataFrame :=
  [ mkObs "A" "2020" 1; mkObs "A" "2021" 2; mkObs "B" "2020" 3 ].

Definition indicator_2 : DataFrame :=
  [ mkObs "A" "2020" 5; mkObs "A" "2021" 7 ].

(** A provider whose series "a" fails and whose other series have one row. *)
Definition provider_a_fails (series_code : string) : fetched :=
  if (series_code =? "a")%string then FetchFails else Frame [("2020", 3)].

(** A joined frame whose only entity has three rows and the same [x] in
    each. *)
Definition flat_x_frame : list JoinedRecord :=
  [ mkJoined "A" "2019" 1 2; mkJoined "A" "2020" 1 4; mkJoined "A" "2021" 1 6 ].

(** A joined frame with [y = 2 * x + 3] on each of its three rows. *)
Definition noiseless_frame : list JoinedRecord :=
  [ mkJoined "A" "2019" 0 3; mkJoined "A" "2020" 1 5; mkJoined "A" "2021" 2 7 ].

(** A provider with one row for every series but "a", which is empty. *)
Definition provider_a_empty (series_code : string) : fetched :=
  if (series_code =? "a")%string then Frame [] else Frame [("2020", 3)].

(** Rows of a group in binary64, written in decimal as Python reads them. *)
#[local] Set Warnings "-inexact-float".

Definition rows_above_one : list (float * float) :=
  [ (1.7, 6.6); (-1.9, -4.8) ]%float.

Definition rows_below_minus_one : list (float * float) :=
  [ (-2.8, 6.8); (5.1, 5.2) ]%float.

Definition rows_asymmetric : list (float * float) :=
  [ (3.4, 4.2); (3.7, 9.3) ]%float.

Definition column_tiny : list float := [ 1e-90; 2e-90 ]%float.

Definition column_huge : list float := [ 1e90; 2e90 ]%float.

(** * Properties *)

(** ** The aggregator *)

Section AggregatorFacts.

Variable fetch_series : string -> fetched.

Lemma fetch_loop_no_failure items :
  no_failure fetch_series items ->
  forall dfs tr,
    fetch_loop fetch_series items dfs tr
    = (tr ++ map (fun item => Fetch (snd item)) items,
       inr (dfs ++ kept_frames fetch_series items)).
Proof.
  induction items as [|[country code] rest IH]; intros Hok dfs tr.
  - cbn. now rewrite !app_nil_r.
  - assert (Hrest : no_failure fetch_series rest)
      by (intros it Hit; apply Hok; now right).
    specialize (IH Hrest).
    pose proof (Hok (country, code) (or_introl eq_refl)) as Hhere.
    cbn [fetch_loop kept_frames flat_map map snd fst] in *.
    unfold bind at 1, call_fetch, bind, emit.
    destruct (fetch_series code) as [rows|] eqn:E; [|congruence].
    cbn [ret].
    destruct rows as [|r rows']; cbn [empty negb].
    + rewrite IH. cbn. now rewrite <- app_assoc.
    + rewrite IH. cbn. now rewrite <- !app_assoc.
Qed.

Lemma fetch_loop_failure pre country code post :
  no_failure fetch_series pre ->
  fetch_series code = FetchFails ->
  forall dfs tr,
    fetch_loop fetch_series (pre ++ (country, code) :: post) dfs tr
    = (tr ++ map (fun item => Fetch (snd item)) pre ++ [Fetch code],
       inl (DataSourceError code)).
Proof.
  induction pre as [|[c0 code0] rest IH]; intros Hok Hfail dfs tr.
  - cbn [app fetch_loop map].
    unfold bind at 1, call_fetch, bind, emit. rewrite Hfail. reflexivity.
  - assert (Hrest : no_failure fetch_series rest)
      by (intros it Hit; apply Hok; now right).
    pose proof (Hok (c0, code0) (or_introl eq_refl)) as Hhere.
    cbn [app fetch_loop map snd] in *.
    unfold bind at 1, call_fetch, bind, emit.
    destruct (fetch_series code0) as [rows|] eqn:E; [|congruence].
    cbn [ret].
    destruct (negb (empty rows)); rewrite (IH Hrest Hfail);
      now rewrite <- app_assoc.
Qed.

(** Every kept frame has a row. *)
Lemma kept_frames_nonempty items df :
  In df (kept_frames fetch_series items) -> df <> [].
Proof.
  unfold kept_frames. rewrite in_flat_map. intros [item [_ Hin]].
  destruct (fetch_series (snd item)) as [rows|]; [|contradiction].
  destruct rows; cbn in Hin; [contradiction|].
  destruct Hin as [<-|[]]. discriminate.
Qed.

(** When no fetch fails and some fetch has rows, the aggregate is the
    concatenation of the tagged non-empty frames, in the order of the
    mapping. *)
Lemma fetch_and_prepare_data_some items col_name :
  no_failure fetch_series items ->
  kept_frames fetch_series items <> [] ->
  run (fetch_and_prepare_data fetch_series items col_name)
  = (map (fun item => Fetch (snd item)) items,
     inr (List.concat (kept_frames fetch_series items))).
Proof.
  intros Hok Hsome. unfold run, fetch_and_prepare_data, bind.
  rewrite (fetch_loop_no_failure items Hok). cbn [app].
  destruct (kept_frames fetch_series items); [congruence|reflexivity].
Qed.

(** When every fetch is empty, [pd.concat] receives no frame and raises. *)
Lemma fetch_and_prepare_data_all_empty items col_name :
  (forall item, In item items -> fetch_series (snd item) = Frame []) ->
  run (fetch_and_prepare_data fetch_series items col_name)
  = (map (fun item => Fetch (snd item)) items,
     inl (ValueError "No objects to concatenate")).
Proof.
  intros Hall. unfold run, fetch_and_prepare_data, bind.
  rewrite fetch_loop_no_failure.
  - assert (kept_frames fetch_series items = []) as ->; [|reflexivity].
    unfold kept_frames. induction items as [|it rest IH]; [reflexivity|].
    cbn. rewrite (Hall it (or_introl eq_refl)). cbn.
    apply IH. intros i Hi. apply Hall. now right.
  - intros it Hit. rewrite (Hall it Hit). discriminate.
Qed.

End AggregatorFacts.

(** C2, at the input where it fails: with a mapping whose only entity has no
    data the aggregation ends in [ValueError], not in an empty frame. *)
Theorem fetch_and_prepare_data_empty_raises :
  run (fetch_and_prepare_data (fun _ => Frame [])
         [("USA", "IMF/WEO:2024-04/USA.NGDP_RPCH.pcent_change")]
         "GDP Growth Rate (%)")
  = ([Fetch "IMF/WEO:2024-04/USA.NGDP_RPCH.pcent_change"],
     inl (ValueError "No objects to concatenate")).
Proof. reflexivity. Qed.

(** C3, amended: a fetch that fails ends the aggregation with its
    [DataSourceError]; the entities before it were fetched, those after it
    are not, and no aggregate is returned. *)
Theorem fetch_failure_aborts_aggregation
  (fetch_series : string -> fetched)
  (pre post : list (string * string)) (country code col_name : string) :
  no_failure fetch_series pre ->
  fetch_series code = FetchFails ->
  run (fetch_and_prepare_data fetch_series
         (pre ++ (country, code) :: post) col_name)
  = (map (fun item => Fetch (snd item)) pre ++ [Fetch code],
     inl (DataSourceError code)).
Proof.
  intros Hok Hfail. unfold run, fetch_and_prepare_data, bind.
  now rewrite (@fetch_loop_failure fetch_series pre country code post Hok Hfail).
Qed.

(** ** Sums, deviations and the Pearson coefficient *)

Lemma Rsum_app l1 l2 : Rsum (l1 ++ l2) = Rsum l1 + Rsum l2.
Proof.
  unfold Rsum. induction l1 as [|a l1 IH]; cbn; [lra|]. rewrite IH. lra.
Qed.

Lemma Rsum_perm l l' : Permutation l l' -> Rsum l = Rsum l'.
Proof.
  unfold Rsum.
  induction 1 as [| a l l' _ IH | a b l | l l' l'' _ IH1 _ IH2]; cbn.
  - reflexivity.
  - now rewrite IH.
  - lra.
  - congruence.
Qed.

Lemma Rsum_squares_nonneg {A} (f : A -> R) l :
  0 <= Rsum (map (fun a => f a * f a) l).
Proof.
  unfold Rsum. induction l as [|a l IH]; cbn; [lra|].
  pose proof (Rle_0_sqr (f a)) as Hsq. unfold Rsqr in Hsq. lra.
Qed.

Lemma ssqdm_nonneg l : 0 <= ssqdm l.
Proof. unfold ssqdm. apply Rsum_squares_nonneg. Qed.

Lemma mean_perm l l' : Permutation l l' -> mean l = mean l'.
Proof.
  intros P. unfold mean.
  now rewrite (Rsum_perm l l' P), (Permutation_length P).
Qed.

Lemma ssqdm_perm l l' : Permutation l l' -> ssqdm l = ssqdm l'.
Proof.
  intros P. unfold ssqdm. rewrite (mean_perm l l' P).
  apply Rsum_perm. now apply Permutation_map.
Qed.

Lemma covxy_perm ps qs : Permutation ps qs -> covxy ps = covxy qs.
Proof.
  intros P. unfold covxy.
  rewrite (mean_perm _ _ (Permutation_map fst P)),
          (mean_perm _ _ (Permutation_map snd P)).
  apply Rsum_perm. now apply Permutation_map.
Qed.

Lemma map_fst_swap ps : map fst (map swap_pair ps) = map snd ps.
Proof. rewrite map_map. reflexivity. Qed.

Lemma map_snd_swap ps : map snd (map swap_pair ps) = map fst ps.
Proof. rewrite map_map. reflexivity. Qed.

Lemma covxy_swap ps : covxy (map swap_pair ps) = covxy ps.
Proof.
  unfold covxy. rewrite map_fst_swap, map_snd_swap, map_map.
  f_equal. apply map_ext. intros [a b]. cbn. lra.
Qed.

(** The correlation of two columns does not depend on which one is first. *)
Lemma nancorr_swap ps : nancorr (map swap_pair ps) = nancorr ps.
Proof.
  unfold nancorr.
  rewrite length_map, map_fst_swap, map_snd_swap, covxy_swap.
  now rewrite (Rmult_comm (ssqdm (map snd ps))).
Qed.

(** Nor on the order of the rows. *)
Lemma nancorr_perm ps qs : Permutation ps qs -> nancorr ps = nancorr qs.
Proof.
  intros P. unfold nancorr.
  rewrite (Permutation_length P), (covxy_perm ps qs P),
          (ssqdm_perm _ _ (Permutation_map fst P)),
          (ssqdm_perm _ _ (Permutation_map snd P)).
  reflexivity.
Qed.

(** Cauchy-Schwarz on the rows of a frame. *)
Lemma cauchy_schwarz {A} (f g : A -> R) (l : list A) :
  Rsum (map (fun a => f a * g a) l) * Rsum (map (fun a => f a * g a) l)
  <= Rsum (map (fun a => f a * f a) l) * Rsum (map (fun a => g a * g a) l).
Proof.
  induction l as [|a l IH]; [unfold Rsum; cbn; lra|].
  pose proof (Rsum_squares_nonneg f l) as HA.
  pose proof (Rsum_squares_nonneg g l) as HB.
  unfold Rsum in *. cbn [map fold_right].
  set (S := fold_right Rplus 0 (map (fun a => f a * g a) l)) in *.
  set (SA := fold_right Rplus 0 (map (fun a => f a * f a) l)) in *.
  set (SB := fold_right Rplus 0 (map (fun a => g a * g a) l)) in *.
  set (u := f a). set (v := g a).
  assert (Hcross : 2 * (S * (u * v)) <= SA * (v * v) + SB * (u * u)).
  { apply Rsqr_incr_0_var.
    - unfold Rsqr.
      assert (H1 : (S * (u * v)) * (S * (u * v))
                   <= (SA * SB) * ((u * v) * (u * v))).
      { replace ((S * (u * v)) * (S * (u * v)))
          with ((S * S) * ((u * v) * (u * v))) by ring.
        apply Rmult_le_compat_r; [|exact IH].
        pose proof (Rle_0_sqr (u * v)) as Hs. unfold Rsqr in Hs. exact Hs. }
      pose proof (Rle_0_sqr (SA * (v * v) - SB * (u * u))) as H2.
      unfold Rsqr in H2. nra.
    - pose proof (Rle_0_sqr u) as Hu. pose proof (Rle_0_sqr v) as Hv.
      unfold Rsqr in *. nra. }
  nra.
Qed.

Lemma ssqdm_fst_as_sum (ps : list (R * R)) :
  ssqdm (map fst ps)
  = Rsum (map (fun p => (fst p - mean (map fst ps)) * (fst p - mean (map fst ps)))
              ps).
Proof. unfold ssqdm. now rewrite map_map. Qed.

Lemma ssqdm_snd_as_sum (ps : list (R * R)) :
  ssqdm (map snd ps)
  = Rsum (map (fun p => (snd p - mean (map snd ps)) * (snd p - mean (map snd ps)))
              ps).
Proof. unfold ssqdm. now rewrite map_map. Qed.

Lemma covxy_squared_bound ps :
  covxy ps * covxy ps <= ssqdm (map fst ps) * ssqdm (map snd ps).
Proof.
  rewrite ssqdm_fst_as_sum, ssqdm_snd_as_sum. unfold covxy.
  apply (cauchy_schwarz (fun p => fst p - mean (map fst ps))
                        (fun p => snd p - mean (map snd ps))).
Qed.

(** A coefficient that [corr] reports lies between -1 and 1. *)
Lemma nancorr_range ps r : nancorr ps = Fin r -> -1 <= r <= 1.
Proof.
  unfold nancorr. destruct (List.length ps <? 1)%nat; [discriminate|].
  set (d := sqrt (ssqdm (map fst ps) * ssqdm (map snd ps))).
  destruct (Req_dec_T d 0) as [|Hd]; [discriminate|].
  intros [= <-].
  assert (Hpos : 0 < d) by (pose proof (sqrt_pos
    (ssqdm (map fst ps) * ssqdm (map snd ps))); fold d in H; lra).
  assert (Hprod : 0 <= ssqdm (map fst ps) * ssqdm (map snd ps))
    by (apply Rmult_le_pos; apply ssqdm_nonneg).
  assert (Hdd : d * d = ssqdm (map fst ps) * ssqdm (map snd ps))
    by (apply sqrt_sqrt; exact Hprod).
  pose proof (covxy_squared_bound ps) as Hcs. rewrite <- Hdd in Hcs.
  assert (Hup : covxy ps <= d) by (apply Rsqr_incr_0_var; unfold Rsqr; lra).
  assert (Hlo : - covxy ps <= d)
    by (apply Rsqr_incr_0_var; unfold Rsqr; [nra|lra]).
  split.
  - apply Rmult_le_reg_r with d; [exact Hpos|].
    unfold Rdiv. rewrite Rmult_assoc, Rinv_l by exact Hd. lra.
  - apply Rmult_le_reg_r with d; [exact Hpos|].
    unfold Rdiv. rewrite Rmult_assoc, Rinv_l by exact Hd. lra.
Qed.

Lemma ssqdm_nil : ssqdm [] = 0.
Proof. reflexivity. Qed.

Lemma ssqdm_singleton v : ssqdm [v] = 0.
Proof. unfold ssqdm, mean. cbn. field. Qed.

(** [corr] reports a number when both columns vary. *)
Lemma nancorr_defined ps :
  ssqdm (map fst ps) <> 0 -> ssqdm (map snd ps) <> 0 ->
  nancorr ps
  = Fin (covxy ps / sqrt (ssqdm (map fst ps) * ssqdm (map snd ps))).
Proof.
  intros Hx Hy. unfold nancorr.
  destruct ps as [|p ps]; [now elim Hx|]. cbn [List.length Nat.ltb Nat.leb].
  destruct (Req_dec_T _ 0) as [Hz|]; [|reflexivity].
  exfalso. apply sqrt_eq_0 in Hz.
  - apply Rmult_integral in Hz. tauto.
  - apply Rmult_le_pos; apply ssqdm_nonneg.
Qed.

(** [corr] reports nan for a group of fewer than two rows and for a column
    without variance. *)
Lemma nancorr_degenerate ps :
  (List.length ps < 2)%nat \/ ssqdm (map fst ps) = 0 \/ ssqdm (map snd ps) = 0 ->
  nancorr ps = NaN.
Proof.
  intros H. unfold nancorr.
  destruct (List.length ps <? 1)%nat eqn:El; [reflexivity|].
  assert (Hz : ssqdm (map fst ps) * ssqdm (map snd ps) = 0).
  { destruct H as [Hlen|[Hx|Hy]].
    - destruct ps as [|p [|q ps]]; cbn in Hlen, El; try discriminate; try lia.
      cbn [map]. rewrite !ssqdm_singleton. lra.
    - rewrite Hx. lra.
    - rewrite Hy. lra. }
  rewrite Hz, sqrt_0. destruct (Req_dec_T 0 0); [reflexivity|congruence].
Qed.

(** ** The group-by and the selection of the coefficients *)

Lemma in_insert_key c k ks : In c (insert_key k ks) <-> c = k \/ In c ks.
Proof.
  induction ks as [|k' ks IH]; cbn.
  - intuition.
  - destruct (String.compare k k') eqn:E; cbn.
    + apply String.compare_eq_iff in E. subst. intuition.
    + intuition.
    + rewrite IH. intuition.
Qed.

Lemma in_group_keys c df : In c (group_keys df) <-> In c (map jCountry df).
Proof.
  unfold group_keys. induction df as [|r df IH]; cbn; [tauto|].
  rewrite in_insert_key, IH. intuition.
Qed.

Lemma get_group_nonempty c df :
  get_group c df <> [] <-> In c (map jCountry df).
Proof.
  unfold get_group. induction df as [|r df IH]; cbn; [tauto|].
  destruct (jCountry r =? c)%string eqn:E.
  - apply String.eqb_eq in E. split; [now left|discriminate].
  - apply String.eqb_neq in E. rewrite IH. intuition.
Qed.

Lemma iloc_0_2_pairs {A B} (f g : A -> B) l :
  iloc_0_2 (flat_map (fun a => [f a; g a]) l) = map f l.
Proof. induction l as [|a l IH]; cbn; [reflexivity|]. now rewrite IH. Qed.

(** The series [correlations] has one entry per group: the entry of the
    row (country, GDP growth) in the column of the trade balance. *)
Lemma correlations_of_groups df :
  correlations_of df
  = map (fun c => ((c, GDP_Growth_Rate),
                   nancorr (column_pairs GDP_Growth_Rate Trade_Balance
                                         (get_group c df))))
        (group_keys df).
Proof.
  unfold correlations_of, groupby_corr, corr_matrix. cbn [map].
  rewrite (iloc_0_2_pairs
    (fun c => mkCorrRow c GDP_Growth_Rate
       (nancorr (column_pairs GDP_Growth_Rate GDP_Growth_Rate (get_group c df)))
       (nancorr (column_pairs GDP_Growth_Rate Trade_Balance (get_group c df))))).
  unfold select_tb. rewrite map_map. reflexivity.
Qed.

Lemma entities_correlations_of df :
  entities (correlations_of df) = group_keys df.
Proof.
  rewrite correlations_of_groups. unfold entities. rewrite map_map. cbn.
  apply map_id.
Qed.

Lemma corr_value_of_keys (v : string -> pyfloat) (col : column) ks c tr :
  corr_value_of (map (fun k => ((k, col), v k)) ks) c tr
  = if in_dec string_dec c ks then (tr, inr (v c)) else (tr, inl (KeyError c)).
Proof.
  unfold corr_value_of, loc, bind.
  induction ks as [|k ks IH]; cbn [map filter fst snd].
  - destruct (in_dec string_dec c []) as [[]|]. reflexivity.
  - destruct (k =? c)%string eqn:E.
    + apply String.eqb_eq in E. subst k.
      destruct (in_dec string_dec c (c :: ks)) as [_|n];
        [reflexivity|elim n; now left].
    + apply String.eqb_neq in E.
      destruct (in_dec string_dec c (k :: ks)) as [[->|i]|n].
      * congruence.
      * destruct (in_dec string_dec c ks) as [_|n]; [exact IH|contradiction].
      * destruct (in_dec string_dec c ks) as [i|_]; [elim n; now right|exact IH].
Qed.

(** The lookup of the loop succeeds exactly for the countries that have a
    joined row. *)
Lemma corr_value_present df c tr :
  In c (map jCountry df) ->
  corr_value_of (correlations_of df) c tr
  = (tr, inr (nancorr (column_pairs GDP_Growth_Rate Trade_Balance
                                    (get_group c df)))).
Proof.
  intros Hin. rewrite correlations_of_groups.
  rewrite (corr_value_of_keys
    (fun c => nancorr (column_pairs GDP_Growth_Rate Trade_Balance
                                    (get_group c df)))).
  destruct (in_dec string_dec c (group_keys df)) as [_|n]; [reflexivity|].
  elim n. now apply in_group_keys.
Qed.

Lemma corr_value_absent df c tr :
  ~ In c (map jCountry df) ->
  corr_value_of (correlations_of df) c tr = (tr, inl (KeyError c)).
Proof.
  intros Hout. rewrite correlations_of_groups.
  rewrite (corr_value_of_keys
    (fun c => nancorr (column_pairs GDP_Growth_Rate Trade_Balance
                                    (get_group c df)))).
  destruct (in_dec string_dec c (group_keys df)) as [i|_]; [|reflexivity].
  elim Hout. now apply in_group_keys.
Qed.

Lemma column_pairs_fst g :
  map fst (column_pairs GDP_Growth_Rate Trade_Balance g) = map jx g.
Proof. unfold column_pairs. rewrite map_map. reflexivity. Qed.

Lemma column_pairs_snd g :
  map snd (column_pairs GDP_Growth_Rate Trade_Balance g) = map jy g.
Proof. unfold column_pairs. rewrite map_map. reflexivity. Qed.

Lemma column_pairs_length a b g :
  List.length (column_pairs a b g) = List.length g.
Proof. unfold column_pairs. apply length_map. Qed.

(** ** The inner join *)

Lemma same_key_true a b :
  same_key a b = true <-> Country a = Country b /\ Date a = Date b.
Proof.
  unfold same_key. rewrite andb_true_iff, !String.eqb_eq. tauto.
Qed.

Lemma same_key_sym a b : same_key a b = same_key b a.
Proof.
  unfold same_key.
  now rewrite (String.eqb_sym (Country a)), (String.eqb_sym (Date a)).
Qed.

Lemma in_pd_merge r A B :
  In r (pd_merge A B)
  <-> exists a b, In a A /\ In b B /\ same_key a b = true
                  /\ r = mkJoined (Country a) (Date a) (Value a) (Value b).
Proof.
  unfold pd_merge. rewrite in_flat_map. split.
  - intros [a [Ha Hr]]. apply in_map_iff in Hr as [b [Hr Hb]].
    apply filter_In in Hb as [Hb Hk]. now exists a, b.
  - intros [a [b [Ha [Hb [Hk ->]]]]]. exists a. split; [exact Ha|].
    apply in_map_iff. exists b. split; [reflexivity|].
    apply filter_In. now split.
Qed.

(** C5: the join keeps exactly the (country, date) keys that both frames
    have; a key on one side only gives no joined row. *)
Theorem pd_merge_inner_join (A B : DataFrame) (country date : string) :
  In (country, date) (map jkey (pd_merge A B))
  <-> In (country, date) (map key A) /\ In (country, date) (map key B).
Proof.
  rewrite !in_map_iff. split.
  - intros [r [Hk Hr]]. apply in_pd_merge in Hr as [a [b [Ha [Hb [Hs ->]]]]].
    apply same_key_true in Hs as [Hc Hd]. unfold jkey in Hk. cbn in Hk.
    split; [exists a|exists b]; (split; [|assumption]); unfold key;
      congruence.
  - intros [[a [Hka Ha]] [b [Hkb Hb]]]. unfold key in *.
    exists (mkJoined (Country a) (Date a) (Value a) (Value b)).
    split; [exact Hka|]. apply in_pd_merge. exists a, b.
    repeat split; try assumption. apply same_key_true.
    split; congruence.
Qed.

(** Rows of the join as a double loop. *)
Lemma map_filter_flat_map {A B} (p : A -> bool) (f : A -> B) l :
  map f (filter p l) = flat_map (fun a => if p a then [f a] else []) l.
Proof.
  induction l as [|a l IH]; cbn; [reflexivity|].
  destruct (p a); cbn; now rewrite IH.
Qed.

Lemma flat_map_nil {A B} (l : list A) :
  flat_map (fun _ => @nil B) l = [].
Proof. induction l; cbn; auto. Qed.

Lemma flat_map_app_pointwise {A B} (f g : A -> list B) l :
  Permutation (flat_map (fun a => f a ++ g a) l)
              (flat_map f l ++ flat_map g l).
Proof.
  induction l as [|a l IH]; cbn; [constructor|].
  rewrite <- !app_assoc. apply Permutation_app_head.
  rewrite IH.
  rewrite !app_assoc. apply Permutation_app_tail. apply Permutation_app_comm.
Qed.

Lemma flat_map_exchange {A B C} (F : A -> B -> list C) la lb :
  Permutation (flat_map (fun a => flat_map (fun b => F a b) lb) la)
              (flat_map (fun b => flat_map (fun a => F a b) la) lb).
Proof.
  induction la as [|a la IH]; cbn.
  - now rewrite flat_map_nil.
  - rewrite IH. symmetry.
    apply (flat_map_app_pointwise (fun b => F a b)
             (fun b => flat_map (fun a0 => F a0 b) la)).
Qed.

Lemma Permutation_filter_compat {A} (p : A -> bool) l l' :
  Permutation l l' -> Permutation (filter p l) (filter p l').
Proof.
  induction 1 as [| a l l' _ IH | a b l | l l' l'' _ IH1 _ IH2]; cbn.
  - constructor.
  - destruct (p a); [now constructor|exact IH].
  - destruct (p a), (p b); try reflexivity. constructor.
  - now transitivity (filter p l').
Qed.

Lemma map_over_flat_map {A B C} (f : B -> C) (g : A -> list B) l :
  map f (flat_map g l) = flat_map (fun a => map f (g a)) l.
Proof.
  induction l as [|a l IH]; cbn; [reflexivity|]. now rewrite map_app, IH.
Qed.

Lemma pd_merge_rev_loops A B :
  pd_merge B A
  = flat_map (fun b => flat_map (fun a => swapped_row a b) A) B.
Proof.
  unfold pd_merge. apply flat_map_ext. intros b.
  rewrite map_filter_flat_map. apply flat_map_ext. intros a.
  unfold swapped_row. rewrite (same_key_sym b a).
  destruct (same_key a b) eqn:E; [|reflexivity].
  apply same_key_true in E as [-> ->]. reflexivity.
Qed.

Lemma pd_merge_swapped_loops A B :
  map swap_roles (pd_merge A B)
  = flat_map (fun a => flat_map (fun b => swapped_row a b) B) A.
Proof.
  unfold pd_merge. rewrite map_over_flat_map. apply flat_map_ext. intros a.
  rewrite map_map. cbn. rewrite map_filter_flat_map. reflexivity.
Qed.

(** Joining in the other order gives the same rows with the two value
    columns exchanged, up to the order of the rows. *)
Lemma pd_merge_swap A B :
  Permutation (pd_merge B A) (map swap_roles (pd_merge A B)).
Proof.
  rewrite pd_merge_rev_loops, pd_merge_swapped_loops. symmetry.
  apply (flat_map_exchange swapped_row).
Qed.

Lemma get_group_swap c df :
  get_group c (map swap_roles df) = map swap_roles (get_group c df).
Proof.
  unfold get_group. induction df as [|r df IH]; cbn; [reflexivity|].
  destruct (jCountry r =? c)%string; cbn; now rewrite IH.
Qed.

Lemma column_pairs_swap g :
  column_pairs GDP_Growth_Rate Trade_Balance (map swap_roles g)
  = map swap_pair (column_pairs GDP_Growth_Rate Trade_Balance g).
Proof. unfold column_pairs. rewrite !map_map. reflexivity. Qed.

Lemma group_corr_symmetric A B c :
  nancorr (column_pairs GDP_Growth_Rate Trade_Balance (joined_group B A c))
  = nancorr (column_pairs GDP_Growth_Rate Trade_Balance (joined_group A B c)).
Proof.
  unfold joined_group.
  assert (P : Permutation
    (column_pairs GDP_Growth_Rate Trade_Balance (get_group c (pd_merge B A)))
    (column_pairs GDP_Growth_Rate Trade_Balance
       (get_group c (map swap_roles (pd_merge A B))))).
  { unfold column_pairs, get_group. apply Permutation_map.
    apply Permutation_filter_compat. apply pd_merge_swap. }
  rewrite (nancorr_perm _ _ P), get_group_swap, column_pairs_swap.
  apply nancorr_swap.
Qed.

Lemma joined_countries_symmetric A B c :
  In c (map jCountry (pd_merge B A)) <-> In c (map jCountry (pd_merge A B)).
Proof.
  assert (H : Permutation (map jCountry (pd_merge B A))
                          (map jCountry (pd_merge A B))).
  { rewrite (Permutation_map jCountry (pd_merge_swap A B)).
    rewrite map_map. reflexivity. }
  split; apply Permutation_in; [exact H|symmetry; exact H].
Qed.

(** ** The correlation of two frames *)

Lemma correlate_value_present A B c tr :
  joined_group A B c <> [] ->
  corr_value_of (correlate A B) c tr
  = (tr, inr (nancorr (column_pairs GDP_Growth_Rate Trade_Balance
                                    (joined_group A B c)))).
Proof.
  intros H. apply get_group_nonempty in H. now apply corr_value_present.
Qed.

Lemma correlate_value_absent A B c tr :
  joined_group A B c = [] ->
  corr_value_of (correlate A B) c tr = (tr, inl (KeyError c)).
Proof.
  intros H. apply corr_value_absent. intros Hin.
  apply get_group_nonempty in Hin. now apply Hin.
Qed.

Lemma in_entities_correlate A B c :
  In c (entities (correlate A B)) <-> joined_group A B c <> [].
Proof.
  unfold correlate, joined_group.
  now rewrite entities_correlations_of, in_group_keys, get_group_nonempty.
Qed.

(** C1, amended: an entity with at least one joined row has an entry in the
    correlation series and its lookup gives a value; the value is nan when
    the entity has fewer than two joined rows or when one of the two columns
    has no variance. *)
Theorem correlate_value_for_joined_entity (A B : DataFrame) (c : string) :
  joined_group A B c <> [] ->
  exists v,
    run (corr_value_of (correlate A B) c) = ([], inr v)
    /\ In c (entities (correlate A B))
    /\ ((List.length (joined_group A B c) < 2)%nat
        \/ ssqdm (map jx (joined_group A B c)) = 0
        \/ ssqdm (map jy (joined_group A B c)) = 0 -> v = NaN).
Proof.
  intros Hg. eexists. split; [|split].
  - unfold run. apply (correlate_value_present A B c [] Hg).
  - now apply in_entities_correlate.
  - intros Hdeg. apply nancorr_degenerate.
    now rewrite column_pairs_length, column_pairs_fst, column_pairs_snd.
Qed.



(** ** A frame joined with itself *)

Lemma key_injective A a b :
  NoDup (map key A) -> In a A -> In b A -> key a = key b -> a = b.
Proof.
  induction A as [|o A IH]; cbn; [tauto|].
  intros Hnd Ha Hb Hk. inversion Hnd as [|k ks Hout Hnd']; subst.
  destruct Ha as [->|Ha], Hb as [->|Hb].
  - reflexivity.
  - elim Hout. rewrite Hk. now apply in_map.
  - elim Hout. rewrite <- Hk. now apply in_map.
  - now apply IH.
Qed.

Lemma self_join_diagonal A r :
  NoDup (map key A) -> In r (pd_merge A A) -> jy r = jx r.
Proof.
  intros Hnd Hr. apply in_pd_merge in Hr as [a [b [Ha [Hb [Hk ->]]]]].
  apply same_key_true in Hk as [Hc Hd]. cbn.
  assert (a = b) as -> by (apply (key_injective A a b Hnd Ha Hb); unfold key;
                           congruence).
  reflexivity.
Qed.

Lemma covxy_diagonal xs :
  covxy (map (fun v => (v, v)) xs) = ssqdm xs.
Proof.
  unfold covxy, ssqdm. rewrite !map_map. cbn. now rewrite map_id.
Qed.

Lemma nancorr_diagonal xs :
  ssqdm xs <> 0 -> nancorr (map (fun v => (v, v)) xs) = Fin 1.
Proof.
  intros Hx.
  assert (Hf : map fst (map (fun v : R => (v, v)) xs) = xs)
    by (rewrite map_map; apply map_id).
  assert (Hs : map snd (map (fun v : R => (v, v)) xs) = xs)
    by (rewrite map_map; apply map_id).
  rewrite nancorr_defined; rewrite ?Hf, ?Hs; try exact Hx.
  rewrite covxy_diagonal, sqrt_square by apply ssqdm_nonneg.
  f_equal. now field.
Qed.

(** In binary64 the loop run on a column against itself keeps its two means
    equal and its three sums equal. *)
Lemma welford_self_invariant xs :
  forall w,
    w_meany w = w_meanx w ->
    w_ssqdm_y w = w_ssqdm_x w ->
    w_covxy w = w_ssqdm_x w ->
    let w' := fold_left welford_step (map (fun v => (v, v)) xs) w in
    w_meany w' = w_meanx w'
    /\ w_ssqdm_y w' = w_ssqdm_x w'
    /\ w_covxy w' = w_ssqdm_x w'.
Proof.
  induction xs as [|v xs IH]; intros w Hm Hs Hc; cbn [map fold_left].
  - cbv zeta. tauto.
  - apply IH; unfold welford_step; cbn [fst snd w_meanx w_meany w_ssqdm_x
                                         w_ssqdm_y w_covxy];
      rewrite ?Hm, ?Hs, ?Hc; reflexivity.
Qed.

Lemma nancorr64_self xs :
  nancorr64 (map (fun v => (v, v)) xs) = self_quotient xs.
Proof.
  unfold nancorr64, self_quotient, welford_loop.
  destruct (welford_self_invariant xs welford_init eq_refl eq_refl eq_refl)
    as [_ [Hs Hc]].
  cbv zeta in Hs, Hc. cbv zeta. now rewrite Hs, Hc.
Qed.



(** In binary64, exchanging the two columns exchanges the means and the sums
    of squared deviations of the loop, and keeps the count. *)
Lemma welford_swap ps :
  forall w w',
    welford_mirror w w' ->
    welford_mirror (fold_left welford_step ps w)
                   (fold_left welford_step (map swap64 ps) w').
Proof.
  induction ps as [|p ps IH]; intros w w' Hm; cbn [map fold_left];
    [exact Hm|].
  apply IH. destruct Hm as [Hn [Hx [Hy [Hsx Hsy]]]].
  unfold welford_mirror, welford_step, swap64.
  cbn [fst snd w_nobs w_meanx w_meany w_ssqdm_x w_ssqdm_y].
  rewrite Hn, Hx, Hy, Hsx, Hsy. repeat split; reflexivity.
Qed.



(** ** The end-to-end example *)

Lemma example_group_A :
  joined_group indicator_1 indicator_2 "A"
  = [ mkJoined "A" "2020" 1 5; mkJoined "A" "2021" 2 7 ].
Proof. reflexivity. Qed.

Lemma example_group_B : joined_group indicator_1 indicator_2 "B" = [].
Proof. reflexivity. Qed.

Lemma example_self_group_A :
  joined_group indicator_1 indicator_1 "A"
  = [ mkJoined "A" "2020" 1 1; mkJoined "A" "2021" 2 2 ].
Proof. reflexivity. Qed.

Lemma ssqdm_1_2 : ssqdm [1; 2] = 1 / 2.
Proof. unfold ssqdm, mean, Rsum. cbn. field. Qed.

Lemma ssqdm_5_7 : ssqdm [5; 7] = 2.
Proof. unfold ssqdm, mean, Rsum. cbn. field. Qed.

Lemma example_keys_nodup : NoDup (map key indicator_1).
Proof.
  cbn. repeat constructor; cbn; intuition discriminate.
Qed.

Lemma correlate_value_for_joined_entity_witness :
  joined_group indicator_1 indicator_2 "A" <> []
  /\ exists v,
       run (corr_value_of (correlate indicator_1 indicator_2) "A")
       = ([], inr v)
       /\ In "A" (entities (correlate indicator_1 indicator_2))
       /\ ((List.length (joined_group indicator_1 indicator_2 "A") < 2)%nat
           \/ ssqdm (map jx (joined_group indicator_1 indicator_2 "A")) = 0
           \/ ssqdm (map jy (joined_group indicator_1 indicator_2 "A")) = 0
           -> v = NaN).
Proof.
  assert (H : joined_group indicator_1 indicator_2 "A" <> [])
    by (rewrite example_group_A; discriminate).
  split; [exact H|].
  exact (correlate_value_for_joined_entity indicator_1 indicator_2 "A" H).
Defined.

(** C1 as stated fails on the example: entity B is requested and observed by
    the first indicator, it has no joined row, and it has no entry in the
    correlation series; its lookup raises [KeyError], which ends the loop
    over the selected countries. *)
Lemma correlate_missing_entity_counterexample :
  In (mkObs "B" "2020" 3) indicator_1
  /\ joined_group indicator_1 indicator_2 "B" = []
  /\ ~ In "B" (entities (correlate indicator_1 indicator_2))
  /\ run (corr_value_of (correlate indicator_1 indicator_2) "B")
     = ([], inl (KeyError "B"))
  /\ snd (run (write_correlations (correlate indicator_1 indicator_2)
                 ["A"; "B"]))
     = inl (KeyError "B").
Proof.
  split; [cbn; tauto|]. split; [exact example_group_B|]. split; [|split].
  - rewrite in_entities_correlate, example_group_B. tauto.
  - unfold run. apply correlate_value_absent. exact example_group_B.
  - assert (HA : joined_group indicator_1 indicator_2 "A" <> [])
      by (rewrite example_group_A; discriminate).
    unfold run, write_correlations. cbn [for_each]. unfold bind, emit.
    rewrite (correlate_value_present indicator_1 indicator_2 "A" [] HA).
    rewrite (correlate_value_absent indicator_1 indicator_2 "B" _
               example_group_B).
    reflexivity.
Qed.



(** ** A failing fetch, on an example *)

Lemma fetch_failure_aborts_aggregation_witness :
  no_failure provider_a_fails [("B", "b")]
  /\ provider_a_fails "a" = FetchFails
  /\ run (fetch_and_prepare_data provider_a_fails
            ([("B", "b")] ++ ("A", "a") :: [("C", "c")])
            "GDP Growth Rate (%)")
     = (map (fun item => Fetch (snd item)) [("B", "b")] ++ [Fetch "a"],
        inl (DataSourceError "a")).
Proof.
  assert (Hok : no_failure provider_a_fails [("B", "b")]).
  { intros item [<-|[]]. cbn. discriminate. }
  split; [exact Hok|]. split; [reflexivity|].
  exact (fetch_failure_aborts_aggregation provider_a_fails
           [("B", "b")] [("C", "c")] "A" "a" "GDP Growth Rate (%)"
           Hok eq_refl).
Defined.

(** C3 as stated fails: the fetch of entity A fails, the fetch of entity B
    would succeed, and the aggregation ends with the error of A, without a
    frame and without fetching B. *)
Lemma fetch_failure_counterexample :
  provider_a_fails "b" = Frame [("2020", 3)]
  /\ run (fetch_and_prepare_data provider_a_fails
            [("A", "a"); ("B", "b")] "GDP Growth Rate (%)")
     = ([Fetch "a"], inl (DataSourceError "a"))
  /\ ~ (exists df,
          snd (run (fetch_and_prepare_data provider_a_fails
                      [("A", "a"); ("B", "b")] "GDP Growth Rate (%)"))
          = inr df
          /\ In (mkObs "B" "2020" 3) df).
Proof.
  split; [reflexivity|]. split; [reflexivity|].
  intros [df [H _]]. cbn in H. discriminate.
Qed.

(** ** The block structure of the file *)

Lemma main_py_parse :
  python_parse main_py = Some (IndentationError 336 if_ 335).
Proof. vm_compute. reflexivity. Qed.

(** The check accepts the file once the statements after the header of line
    335 are indented under it. *)
Lemma main_py_indented_parse : python_parse main_py_indented = None.
Proof. vm_compute. reflexivity. Qed.

(** C10: the header of line 335 is followed by a statement at its own
    column, the parser rejects the file with an [IndentationError] at line
    336, and a run of the module ends with that error before any statement
    of [main]: the trace has no fetch, no correlation and no regression. *)
Theorem main_py_rejected (fetch_series : string -> fetched)
  (selected : string) (selected_countries : list string) :
  (exists before after,
      main_py = before ++ H_ 335 4 if_ :: S_ 336 4 :: after)
  /\ python_parse main_py = Some (IndentationError 336 if_ 335)
  /\ run (python_run main_py (main fetch_series selected selected_countries))
     = ([], inl (IndentationError 336 if_ 335)).
Proof.
  split; [|split].
  - exists (firstn 81 main_py), (skipn 83 main_py). reflexivity.
  - exact main_py_parse.
  - unfold run, python_run. rewrite main_py_parse. reflexivity.
Qed.

(** ** Sums of a group in closed form *)

Lemma INR_length_cons {A} (a : A) l :
  INR (List.length (a :: l)) = INR (List.length l) + 1.
Proof. cbn [List.length]. apply S_INR. Qed.

Lemma Rsum_cons a l : Rsum (a :: l) = a + Rsum l.
Proof. reflexivity. Qed.

Lemma dev_sq_expand m l :
  Rsum (map (fun v => (v - m) * (v - m)) l)
  = Rsum (map (fun v => v * v) l) - 2 * m * Rsum l
    + INR (List.length l) * m * m.
Proof.
  induction l as [|v l IH].
  - cbn. unfold Rsum. cbn. ring.
  - cbn [map]. rewrite !Rsum_cons, INR_length_cons, IH. ring.
Qed.

Lemma dev_prod_expand a b (ps : list (R * R)) :
  Rsum (map (fun p => (fst p - a) * (snd p - b)) ps)
  = Sxy ps - a * Sy ps - b * Sx ps + INR (List.length ps) * a * b.
Proof.
  unfold Sxy, Sy, Sx. induction ps as [|p ps IH].
  - cbn. unfold Rsum. cbn. ring.
  - cbn [map]. rewrite !Rsum_cons, INR_length_cons, IH. ring.
Qed.

Lemma ssr_expand a b rows :
  ssr a b rows
  = Syy rows - 2 * a * Sy rows - 2 * b * Sxy rows
    + INR (List.length rows) * a * a + 2 * a * b * Sx rows
    + b * b * Sxx rows.
Proof.
  unfold ssr, predict, Syy, Sy, Sxy, Sx, Sxx. induction rows as [|p rows IH].
  - cbn. unfold Rsum. cbn. ring.
  - cbn [map]. rewrite !Rsum_cons, INR_length_cons, IH. ring.
Qed.

Lemma sq_line_expand u v (rows : list (R * R)) :
  Rsum (map (fun p => (u + v * fst p) * (u + v * fst p)) rows)
  = INR (List.length rows) * u * u + 2 * u * v * Sx rows
    + v * v * Sxx rows.
Proof.
  unfold Sx, Sxx. induction rows as [|p rows IH].
  - cbn. unfold Rsum. cbn. ring.
  - cbn [map]. rewrite !Rsum_cons, INR_length_cons, IH. ring.
Qed.

Lemma INR_length_pos {A} (l : list A) : l <> [] -> 0 < INR (List.length l).
Proof.
  destruct l; [congruence|]. intros _. rewrite INR_length_cons.
  pose proof (pos_INR (List.length l)). lra.
Qed.

Lemma Sxx_as_map rows : Sxx rows = Rsum (map (fun v => v * v) (map fst rows)).
Proof. unfold Sxx. now rewrite map_map. Qed.

Lemma Syy_as_map rows : Syy rows = Rsum (map (fun v => v * v) (map snd rows)).
Proof. unfold Syy. now rewrite map_map. Qed.

(** [n * ssqdm x = n * sum(x*x) - sum(x)^2], the determinant of the normal
    equations. *)
Lemma normal_det_ssqdm rows :
  rows <> [] ->
  normal_det rows = INR (List.length rows) * ssqdm (map fst rows).
Proof.
  intros Hne. pose proof (INR_length_pos rows Hne) as Hn.
  unfold normal_det, ssqdm. rewrite dev_sq_expand, <- Sxx_as_map.
  unfold mean. rewrite length_map. fold (Sx rows). field. lra.
Qed.

Lemma tss_closed_form rows :
  rows <> [] ->
  INR (List.length rows) * centered_tss (map snd rows)
  = INR (List.length rows) * Syy rows - Sy rows * Sy rows.
Proof.
  intros Hne. pose proof (INR_length_pos rows Hne) as Hn.
  unfold centered_tss, ssqdm. rewrite dev_sq_expand, <- Syy_as_map.
  unfold mean. rewrite length_map. fold (Sy rows). field. lra.
Qed.

Lemma covxy_closed_form rows :
  rows <> [] ->
  INR (List.length rows) * covxy rows
  = INR (List.length rows) * Sxy rows - Sx rows * Sy rows.
Proof.
  intros Hne. pose proof (INR_length_pos rows Hne) as Hn.
  unfold covxy. rewrite dev_prod_expand.
  unfold mean. rewrite !length_map. fold (Sx rows) (Sy rows). field. lra.
Qed.

(** Parameters that solve the normal equations minimise the residual sum of
    squares among all lines. *)
Lemma normal_equations_minimise rows c s :
  INR (List.length rows) * c + Sx rows * s = Sy rows ->
  Sx rows * c + Sxx rows * s = Sxy rows ->
  forall a b, ssr c s rows <= ssr a b rows.
Proof.
  intros H1 H2 a b.
  pose proof (Rsum_squares_nonneg
                (fun p : R * R => (a - c) + (b - s) * fst p) rows) as Hsq.
  cbv beta in Hsq. rewrite (sq_line_expand (a - c) (b - s) rows) in Hsq.
  rewrite !ssr_expand.
  set (n := INR (List.length rows)) in *.
  replace (Syy rows - 2 * a * Sy rows - 2 * b * Sxy rows + n * a * a
           + 2 * a * b * Sx rows + b * b * Sxx rows)
    with ((Syy rows - 2 * c * Sy rows - 2 * s * Sxy rows + n * c * c
           + 2 * c * s * Sx rows + s * s * Sxx rows)
          + (n * (a - c) * (a - c) + 2 * (a - c) * (b - s) * Sx rows
             + (b - s) * (b - s) * Sxx rows)).
  - lra.
  - rewrite <- H1, <- H2. ring.
Qed.

(** ** Constant and varying columns *)

Lemma Reqb_true a b : Reqb a b = true <-> a = b.
Proof. unfold Reqb. destruct (Req_dec_T a b); split; congruence. Qed.

Lemma Reqb_false a b : Reqb a b = false <-> a <> b.
Proof. unfold Reqb. destruct (Req_dec_T a b); split; congruence. Qed.

Lemma Rsum_zeros {A} (l : list A) : Rsum (map (fun _ => 0) l) = 0.
Proof.
  induction l as [|a l IH]; [reflexivity|].
  cbn [map]. rewrite Rsum_cons, IH. lra.
Qed.

Lemma Rsum_constant c l :
  (forall w, In w l -> w = c) -> Rsum l = INR (List.length l) * c.
Proof.
  induction l as [|v l IH]; intros H.
  - cbn. unfold Rsum. cbn. ring.
  - rewrite Rsum_cons, INR_length_cons, IH, (H v (or_introl eq_refl)).
    + ring.
    + intros w Hw. apply H. now right.
Qed.

Lemma Rsum_squares_zero {A} (f : A -> R) l :
  Rsum (map (fun a => f a * f a) l) = 0 -> forall a, In a l -> f a = 0.
Proof.
  induction l as [|b l IH]; intros Hz a Ha; [contradiction|].
  cbn [map] in Hz. rewrite Rsum_cons in Hz.
  pose proof (Rsum_squares_nonneg f l) as Hl.
  pose proof (Rle_0_sqr (f b)) as Hb. unfold Rsqr in Hb.
  destruct Ha as [<-|Ha].
  - assert (f b * f b = 0) by lra. nra.
  - apply IH; [lra|exact Ha].
Qed.

Lemma constant_mean c l :
  l <> [] -> (forall w, In w l -> w = c) -> mean l = c.
Proof.
  intros Hne H. unfold mean. rewrite (Rsum_constant c l H).
  pose proof (INR_length_pos l Hne). field. lra.
Qed.

Lemma constant_ssqdm c l : (forall w, In w l -> w = c) -> ssqdm l = 0.
Proof.
  intros H. destruct l as [|v l]; [reflexivity|].
  unfold ssqdm. rewrite (constant_mean c (v :: l)) by (congruence || exact H).
  rewrite (map_ext_in _ (fun _ => 0)); [apply Rsum_zeros|].
  intros w Hw. rewrite (H w Hw). ring.
Qed.

Lemma ssqdm_zero_constant l :
  ssqdm l = 0 -> forall w, In w l -> w = mean l.
Proof.
  intros Hz w Hw. unfold ssqdm in Hz.
  pose proof (Rsum_squares_zero (fun v => v - mean l) l Hz w Hw) as H.
  cbv beta in H. lra.
Qed.

Lemma is_nonzero_constant_true xs :
  is_nonzero_constant xs = true ->
  exists c, c <> 0 /\ xs <> [] /\ forall w, In w xs -> w = c.
Proof.
  destruct xs as [|v rest]; [discriminate|].
  unfold is_nonzero_constant. rewrite andb_true_iff.
  intros [Hall Hex]. rewrite forallb_forall in Hall.
  assert (Hc : forall w, In w (v :: rest) -> w = v).
  { intros w [<-|Hw]; [reflexivity|].
    symmetry. apply Reqb_true. now apply Hall. }
  exists v. split; [|split; [discriminate|exact Hc]].
  apply existsb_exists in Hex as [w [Hw Hnz]].
  apply negb_true_iff, Reqb_false in Hnz. now rewrite <- (Hc w Hw).
Qed.

Lemma varying_not_constant xs :
  ssqdm xs <> 0 -> is_nonzero_constant xs = false.
Proof.
  intros Hv. destruct (is_nonzero_constant xs) eqn:E; [|reflexivity].
  apply is_nonzero_constant_true in E as [c [_ [_ Hc]]].
  elim Hv. now apply (constant_ssqdm c).
Qed.

Lemma constant_column_sums c (rows : list (R * R)) :
  (forall p, In p rows -> fst p = c) ->
  Sx rows = INR (List.length rows) * c
  /\ Sxx rows = INR (List.length rows) * c * c
  /\ Sxy rows = c * Sy rows.
Proof.
  unfold Sx, Sxx, Sxy, Sy. induction rows as [|p rows IH]; intros H.
  - cbn. unfold Rsum. cbn. repeat split; ring.
  - destruct IH as [I1 [I2 I3]]; [intros q Hq; apply H; now right|].
    cbn [map]. rewrite !Rsum_cons, INR_length_cons, I1, I2, I3,
      (H p (or_introl eq_refl)).
    repeat split; ring.
Qed.

(** ** The regression of one group *)

Lemma combine_columns g : combine (map jx g) (map jy g) = xy_rows g.
Proof.
  unfold xy_rows, column_pairs. induction g as [|r g IH]; cbn;
    [reflexivity|now rewrite IH].
Qed.

Lemma xy_rows_length g : List.length (xy_rows g) = List.length g.
Proof. apply column_pairs_length. Qed.

Lemma xy_rows_fst g : map fst (xy_rows g) = map jx g.
Proof. apply column_pairs_fst. Qed.

Lemma xy_rows_snd g : map snd (xy_rows g) = map jy g.
Proof. apply column_pairs_snd. Qed.

Lemma xy_rows_nonempty g : g <> [] -> xy_rows g <> [].
Proof. destruct g; [congruence|discriminate]. Qed.

Lemma mean_snd_rows rows :
  mean (map snd rows) = Sy rows / INR (List.length rows).
Proof. unfold mean, Sy. now rewrite length_map. Qed.

Lemma mean_fst_rows rows :
  mean (map fst rows) = Sx rows / INR (List.length rows).
Proof. unfold mean, Sx. now rewrite length_map. Qed.

Lemma normal_solution_solves rows :
  normal_det rows <> 0 ->
  INR (List.length rows) * normal_const rows + Sx rows * normal_slope rows
  = Sy rows
  /\ Sx rows * normal_const rows + Sxx rows * normal_slope rows = Sxy rows.
Proof.
  intros Hd. unfold normal_const, normal_slope, normal_det in *.
  split; field; exact Hd.
Qed.

(** For a group with at least one row the fit returns a model. Its
    parameters solve the normal equations of the line with an intercept
    (with intercept 0 when the constant column was skipped), and with
    variance in [x] they are the solution of full rank. *)
Lemma regress_country_fits df country tr :
  get_group country df <> [] ->
  exists c s,
    regress_country df country tr
    = (tr, inr (mkOLS
         (if is_nonzero_constant (map jx (get_group country df))
          then None else Some c)
         s
         (rsquared_of (ssr c s (xy_rows (get_group country df)))
                      (centered_tss (map jy (get_group country df))))
         (List.length (get_group country df))))
    /\ (is_nonzero_constant (map jx (get_group country df)) = true -> c = 0)
    /\ INR (List.length (xy_rows (get_group country df))) * c
       + Sx (xy_rows (get_group country df)) * s
       = Sy (xy_rows (get_group country df))
    /\ Sx (xy_rows (get_group country df)) * c
       + Sxx (xy_rows (get_group country df)) * s
       = Sxy (xy_rows (get_group country df))
    /\ (ssqdm (map jx (get_group country df)) <> 0 ->
        c = normal_const (xy_rows (get_group country df))
        /\ s = normal_slope (xy_rows (get_group country df))).
Proof.
  set (g := get_group country df). intros Hne.
  set (rows := xy_rows g).
  assert (Hrne : rows <> []) by now apply xy_rows_nonempty.
  assert (Hlg : List.length rows = List.length g) by apply xy_rows_length.
  pose proof (INR_length_pos rows Hrne) as Hn.
  assert (Hlen : (List.length rows =? 0)%nat = false).
  { apply Nat.eqb_neq. destruct rows; [congruence|discriminate]. }
  assert (Hconst : forall c0, (forall w, In w (map jx g) -> w = c0) ->
                   forall p, In p rows -> fst p = c0).
  { intros c0 H p Hp. apply H. rewrite <- (xy_rows_fst g). now apply in_map. }
  unfold regress_country, add_constant. fold g.
  destruct (is_nonzero_constant (map jx g)) eqn:Ec.
  - apply is_nonzero_constant_true in Ec as [c0 [Hc0 [_ Hall]]].
    destruct (constant_column_sums c0 rows (Hconst c0 Hall))
      as [HSx [HSxx HSxy]].
    assert (HSxx0 : Sxx rows <> 0).
    { rewrite HSxx. intros Hz.
      apply Rmult_integral in Hz as [Hz|Hz]; [|contradiction].
      apply Rmult_integral in Hz as [Hz|Hz]; [lra|contradiction]. }
    exists 0, (Sxy rows / Sxx rows).
    split; [|split; [reflexivity|split; [|split]]].
    + unfold OLS_fit. rewrite combine_columns. fold rows. rewrite Hlen.
      cbv zeta. destruct (Req_dec_T (Sxx rows) 0) as [Hz|_]; [contradiction|].
      unfold ret. rewrite Hlg. reflexivity.
    + rewrite HSxy, HSxx, HSx. field. lra.
    + field. exact HSxx0.
    + intros Hv. elim Hv. now apply (constant_ssqdm c0).
  - destruct (Req_dec_T (normal_det rows) 0) as [Hd|Hd].
    + assert (Hss : ssqdm (map jx g) = 0).
      { rewrite (normal_det_ssqdm rows Hrne) in Hd.
        unfold rows in Hd. rewrite xy_rows_fst in Hd. fold rows in Hd.
        apply Rmult_integral in Hd as [Hd|Hd]; [lra|exact Hd]. }
      pose proof (ssqdm_zero_constant (map jx g) Hss) as Hall.
      assert (Hhd : hd 0 (map jx g) = mean (map jx g)).
      { destruct g as [|r g']; [congruence|]. cbn [map hd].
        apply Hall. now left. }
      set (c0 := mean (map jx g)) in *.
      destruct (constant_column_sums c0 rows (Hconst c0 Hall))
        as [HSx [HSxx HSxy]].
      assert (Hden : 1 + c0 * c0 <> 0)
        by (pose proof (Rle_0_sqr c0) as Hq; unfold Rsqr in Hq; lra).
      assert (Hmy : mean (map jy g) = Sy rows / INR (List.length rows)).
      { unfold rows. rewrite <- (xy_rows_snd g). apply mean_snd_rows. }
      exists (mean (map jy g) / (1 + c0 * c0)),
             (c0 * mean (map jy g) / (1 + c0 * c0)).
      split; [|split; [discriminate|split; [|split]]].
      * unfold OLS_fit. rewrite combine_columns. fold rows. rewrite Hlen.
        cbv zeta. rewrite Hhd.
        destruct (Req_dec_T (normal_det rows) 0) as [_|Hnz];
          [|contradiction].
        unfold ret. rewrite Hlg. reflexivity.
      * rewrite HSx, Hmy. field. lra.
      * rewrite HSx, HSxx, HSxy, Hmy. field. lra.
      * intros Hv. contradiction.
    + destruct (normal_solution_solves rows Hd) as [H1 H2].
      exists (normal_const rows), (normal_slope rows).
      split; [|split; [discriminate|split; [exact H1|split; [exact H2|]]]].
      * unfold OLS_fit. rewrite combine_columns. fold rows. rewrite Hlen.
        cbv zeta.
        destruct (Req_dec_T (normal_det rows) 0) as [Hz|_]; [contradiction|].
        unfold ret. rewrite Hlg. reflexivity.
      * intros _. split; reflexivity.
Qed.

Lemma noiseless_sums (rows : list (R * R)) :
  (forall p, In p rows -> snd p = 2 * fst p + 3) ->
  Sy rows = 2 * Sx rows + 3 * INR (List.length rows)
  /\ Sxy rows = 2 * Sxx rows + 3 * Sx rows
  /\ Syy rows = 4 * Sxx rows + 12 * Sx rows + 9 * INR (List.length rows)
  /\ ssr 3 2 rows = 0.
Proof.
  unfold Sy, Sx, Sxy, Sxx, Syy, ssr, predict.
  induction rows as [|p rows IH]; intros H.
  - cbn. unfold Rsum. cbn. repeat split; ring.
  - destruct IH as [I1 [I2 [I3 I4]]]; [intros q Hq; apply H; now right|].
    pose proof (H p (or_introl eq_refl)) as Hp.
    cbn [map]. rewrite !Rsum_cons, INR_length_cons, I1, I2, I3, I4, Hp.
    repeat split; ring.
Qed.

(** C7: for a group with three rows or more and variance in [x], the fit
    returns the least-squares line: the slope is covariance over variance,
    the intercept is [mean(y) - slope * mean(x)], and no line has a smaller
    residual sum of squares. When [y = 2 * x + 3] on every row, the slope is
    2, the intercept 3 and R-squared 1. *)
Theorem regress_is_least_squares (df : list JoinedRecord) (country : string) :
  (3 <= List.length (get_group country df))%nat ->
  ssqdm (map jx (get_group country df)) <> 0 ->
  exists model,
    run (regress_country df country) = ([], inr model)
    /\ nobs model = List.length (get_group country df)
    /\ params_x model
       = covariance (xy_rows (get_group country df))
         / variance (map jx (get_group country df))
    /\ params_const model
       = Some (mean (map jy (get_group country df))
               - params_x model * mean (map jx (get_group country df)))
    /\ (forall a b,
          ssr (intercept_of model) (params_x model)
              (xy_rows (get_group country df))
          <= ssr a b (xy_rows (get_group country df)))
    /\ ((forall r, In r (get_group country df) -> jy r = 2 * jx r + 3) ->
        params_x model = 2
        /\ params_const model = Some 3
        /\ rsquared model = Fin 1).
Proof.
  set (g := get_group country df). intros Hlen Hv.
  assert (Hne : g <> []) by (intros E; rewrite E in Hlen; cbn in Hlen; lia).
  destruct (regress_country_fits df country [] Hne)
    as [c [s [Hrun [_ [H1 [H2 Hfull]]]]]].
  fold g in Hrun, H1, H2, Hfull.
  destruct (Hfull Hv) as [Hc Hs].
  rewrite (varying_not_constant _ Hv) in Hrun.
  set (rows := xy_rows g) in *.
  assert (Hrne : rows <> []) by now apply xy_rows_nonempty.
  pose proof (INR_length_pos rows Hrne) as Hn.
  assert (Hlg : List.length rows = List.length g) by apply xy_rows_length.
  assert (Hn3 : 3 <= INR (List.length rows)).
  { rewrite Hlg. replace 3 with (INR 3) by (cbn; lra).
    apply le_INR. exact Hlen. }
  assert (Hfst : map fst rows = map jx g) by apply xy_rows_fst.
  assert (Hsnd : map snd rows = map jy g) by apply xy_rows_snd.
  assert (Hd : normal_det rows <> 0).
  { rewrite (normal_det_ssqdm rows Hrne), Hfst.
    apply Rmult_integral_contrapositive. split; [lra|exact Hv]. }
  assert (Hmx : mean (map jx g) = Sx rows / INR (List.length rows)).
  { rewrite <- Hfst. apply mean_fst_rows. }
  assert (Hmy : mean (map jy g) = Sy rows / INR (List.length rows)).
  { rewrite <- Hsnd. apply mean_snd_rows. }
  eexists. split; [exact Hrun|]. cbn [nobs params_x params_const intercept_of].
  split; [reflexivity|]. split; [|split; [|split]].
  - rewrite Hs. unfold normal_slope, covariance, variance.
    rewrite <- (covxy_closed_form rows Hrne), (normal_det_ssqdm rows Hrne).
    rewrite length_map, <- Hlg, Hfst.
    field. repeat split; lra.
  - f_equal. rewrite Hmx, Hmy, <- H1. field. lra.
  - apply normal_equations_minimise; assumption.
  - intros Hline.
    assert (Hrows : forall p, In p rows -> snd p = 2 * fst p + 3).
    { intros p Hp. unfold rows, xy_rows, column_pairs in Hp.
      apply in_map_iff in Hp as [r [<- Hr]]. cbn. now apply Hline. }
    destruct (noiseless_sums rows Hrows) as [HSy [HSxy [HSyy Hssr]]].
    assert (Hs2 : s = 2).
    { rewrite Hs. unfold normal_slope. unfold normal_det in *.
      rewrite HSy, HSxy. field. exact Hd. }
    assert (Hc3 : c = 3).
    { rewrite Hc. unfold normal_const. unfold normal_det in *.
      rewrite HSy, HSxy. field. exact Hd. }
    split; [exact Hs2|]. split; [now rewrite Hc3|].
    rewrite Hc3, Hs2, Hssr. unfold rsquared_of.
    assert (Htss : centered_tss (map jy g) <> 0).
    { intros Hz. pose proof (tss_closed_form rows Hrne) as Ht.
      rewrite Hsnd, Hz, HSyy, HSy in Ht. unfold normal_det in Hd.
      apply Hd. lra. }
    destruct (Req_dec_T (centered_tss (map jy g)) 0) as [Hz|_];
      [contradiction|].
    cbn [rsquared]. f_equal. field. exact Htss.
Qed.

Lemma noiseless_group : get_group "A" noiseless_frame = noiseless_frame.
Proof. reflexivity. Qed.

Lemma ssqdm_0_1_2 : ssqdm [0; 1; 2] = 2.
Proof. unfold ssqdm, mean, Rsum. cbn. field. Qed.

Lemma regress_is_least_squares_witness :
  (3 <= List.length (get_group "A" noiseless_frame))%nat
  /\ ssqdm (map jx (get_group "A" noiseless_frame)) <> 0
  /\ exists model,
       run (regress_country noiseless_frame "A") = ([], inr model)
       /\ nobs model = List.length (get_group "A" noiseless_frame)
       /\ params_x model
          = covariance (xy_rows (get_group "A" noiseless_frame))
            / variance (map jx (get_group "A" noiseless_frame))
       /\ params_const model
          = Some (mean (map jy (get_group "A" noiseless_frame))
                  - params_x model
                    * mean (map jx (get_group "A" noiseless_frame)))
       /\ (forall a b,
             ssr (intercept_of model) (params_x model)
                 (xy_rows (get_group "A" noiseless_frame))
             <= ssr a b (xy_rows (get_group "A" noiseless_frame)))
       /\ ((forall r, In r (get_group "A" noiseless_frame) ->
                      jy r = 2 * jx r + 3) ->
           params_x model = 2
           /\ params_const model = Some 3
           /\ rsquared model = Fin 1).
Proof.
  assert (Hn : (3 <= List.length (get_group "A" noiseless_frame))%nat)
    by (rewrite noiseless_group; cbn; lia).
  assert (Hv : ssqdm (map jx (get_group "A" noiseless_frame)) <> 0)
    by (rewrite noiseless_group; cbn [map jx noiseless_frame];
        rewrite ssqdm_0_1_2; lra).
  split; [exact Hn|]. split; [exact Hv|].
  exact (regress_is_least_squares noiseless_frame "A" Hn Hv).
Defined.

(** C4, amended: the regression loop has no guard on the sample size or on
    the variance of [x]. For every group with at least one row the fit is
    attempted and returns a model over all the rows of the group, whose line
    has the least residual sum of squares; no result is a marker. *)
Theorem regress_fits_every_group (df : list JoinedRecord) (country : string) :
  get_group country df <> [] ->
  exists model,
    run (regress_country df country) = ([], inr model)
    /\ nobs model = List.length (get_group country df)
    /\ (forall a b,
          ssr (intercept_of model) (params_x model)
              (xy_rows (get_group country df))
          <= ssr a b (xy_rows (get_group country df))).
Proof.
  intros Hne.
  destruct (regress_country_fits df country [] Hne)
    as [c [s [Hrun [Hzero [H1 [H2 _]]]]]].
  destruct (is_nonzero_constant (map jx (get_group country df))) eqn:Ec.
  - rewrite (Hzero eq_refl) in *.
    eexists. split; [exact Hrun|]. split; [reflexivity|].
    cbn [params_x params_const intercept_of].
    apply normal_equations_minimise; assumption.
  - eexists. split; [exact Hrun|]. split; [reflexivity|].
    cbn [params_x params_const intercept_of].
    apply normal_equations_minimise; assumption.
Qed.

Lemma example_joined_group :
  get_group "A" (pd_merge indicator_1 indicator_2)
  = [ mkJoined "A" "2020" 1 5; mkJoined "A" "2021" 2 7 ].
Proof. reflexivity. Qed.

Lemma flat_x_group : get_group "A" flat_x_frame = flat_x_frame.
Proof. reflexivity. Qed.

Lemma regress_fits_every_group_witness :
  get_group "A" (pd_merge indicator_1 indicator_2) <> []
  /\ exists model,
       run (regress_country (pd_merge indicator_1 indicator_2) "A")
       = ([], inr model)
       /\ nobs model
          = List.length (get_group "A" (pd_merge indicator_1 indicator_2))
       /\ (forall a b,
             ssr (intercept_of model) (params_x model)
                 (xy_rows (get_group "A" (pd_merge indicator_1 indicator_2)))
             <= ssr a b
                  (xy_rows (get_group "A" (pd_merge indicator_1 indicator_2)))).
Proof.
  assert (H : get_group "A" (pd_merge indicator_1 indicator_2) <> [])
    by (rewrite example_joined_group; discriminate).
  split; [exact H|].
  exact (regress_fits_every_group (pd_merge indicator_1 indicator_2) "A" H).
Defined.

Lemma flat_x_is_constant : is_nonzero_constant [1; 1; 1] = true.
Proof.
  unfold is_nonzero_constant. cbn [forallb existsb].
  rewrite (proj2 (Reqb_true 1 1) eq_refl).
  rewrite (proj2 (Reqb_false 1 0)) by lra. reflexivity.
Qed.

(** C4 as stated fails twice. The group of entity A in the example has two
    rows, fewer than three, and the fit returns the line through the two
    points, slope 2 and intercept 3. A group whose [x] has no variance gets
    the slope 4 and no intercept. Neither result is a marker. *)
Lemma regress_no_marker_counterexample :
  ((List.length (get_group "A" (pd_merge indicator_1 indicator_2)) < 3)%nat
   /\ exists model,
        run (regress_country (pd_merge indicator_1 indicator_2) "A")
        = ([], inr model)
        /\ params_x model = 2
        /\ params_const model = Some 3
        /\ nobs model = 2%nat)
  /\ (ssqdm (map jx (get_group "A" flat_x_frame)) = 0
      /\ exists model,
           run (regress_country flat_x_frame "A") = ([], inr model)
           /\ params_x model = 4
           /\ params_const model = None
           /\ nobs model = 3%nat).
Proof.
  split.
  - split; [rewrite example_joined_group; cbn; lia|].
    assert (Hne : get_group "A" (pd_merge indicator_1 indicator_2) <> [])
      by (rewrite example_joined_group; discriminate).
    destruct (regress_country_fits (pd_merge indicator_1 indicator_2) "A" []
                Hne) as [c [s [Hrun [_ [H1 [H2 _]]]]]].
    rewrite example_joined_group in Hrun, H1, H2.
    assert (Hv : ssqdm [1; 2] <> 0) by (rewrite ssqdm_1_2; lra).
    cbn [map jx] in Hrun. rewrite (varying_not_constant _ Hv) in Hrun.
    unfold Sx, Sy, Sxx, Sxy, Rsum in H1, H2. cbn in H1, H2.
    eexists. split; [exact Hrun|]. cbn [params_x params_const nobs].
    split; [lra|]. split; [f_equal; lra|reflexivity].
  - split; [rewrite flat_x_group; apply (constant_ssqdm 1); cbn;
            intuition|].
    assert (Hne : get_group "A" flat_x_frame <> [])
      by (rewrite flat_x_group; discriminate).
    destruct (regress_country_fits flat_x_frame "A" [] Hne)
      as [c [s [Hrun [Hzero [H1 _]]]]].
    rewrite flat_x_group in Hrun, H1, Hzero.
    cbn [map jx flat_x_frame] in Hrun, Hzero.
    rewrite flat_x_is_constant in Hrun. specialize (Hzero flat_x_is_constant).
    unfold Sx, Sy, Rsum in H1. cbn in H1.
    eexists. split; [exact Hrun|]. cbn [params_x params_const nobs].
    split; [lra|]. split; reflexivity.
Qed.

(** * Further properties of the pipeline *)

(** ** The aggregator: what a returned frame holds *)

Lemma fetch_loop_success fetch items :
  forall dfs tr tr' out,
    fetch_loop fetch items dfs tr = (tr', inr out) ->
    no_failure fetch items.
Proof.
  induction items as [|[country code] rest IH]; intros dfs tr tr' out Hrun.
  - intros item [].
  - cbn [fetch_loop] in Hrun. unfold bind at 1, call_fetch, bind, emit in Hrun.
    destruct (fetch code) as [rows|] eqn:E; [|discriminate].
    cbn [ret] in Hrun.
    assert (Hrest : no_failure fetch rest)
      by (destruct (negb (empty rows)); eapply IH; exact Hrun).
    intros item [<-|Hin]; [cbn; congruence|now apply Hrest].
Qed.

Lemma aggregate_success fetch items col_name tr df :
  run (fetch_and_prepare_data fetch items col_name) = (tr, inr df) ->
  no_failure fetch items
  /\ kept_frames fetch items <> []
  /\ df = List.concat (kept_frames fetch items)
  /\ tr = map (fun item => Fetch (snd item)) items.
Proof.
  unfold run, fetch_and_prepare_data, bind. intros Hrun.
  destruct (fetch_loop fetch items [] []) as [tr0 [e|dfs]] eqn:El;
    [discriminate|].
  pose proof (fetch_loop_success fetch items [] [] tr0 dfs El) as Hok.
  rewrite (fetch_loop_no_failure fetch items Hok) in El. cbn [app] in El.
  injection El as <- <-.
  destruct (kept_frames fetch items) as [|f fs] eqn:Ek; [discriminate|].
  cbn [pd_concat ret] in Hrun. injection Hrun as <- <-.
  split; [exact Hok|]. split; [discriminate|]. split; reflexivity.
Qed.

Lemma in_kept_frames fetch items frame :
  In frame (kept_frames fetch items)
  <-> exists country code rows,
        In (country, code) items /\ fetch code = Frame rows
        /\ rows <> [] /\ frame = tag country rows.
Proof.
  unfold kept_frames. rewrite in_flat_map. split.
  - intros [[country code] [Hin Hf]]. cbn [fst snd] in Hf.
    destruct (fetch code) as [rows|] eqn:E; [|contradiction].
    destruct rows as [|r rows]; [contradiction|].
    destruct Hf as [<-|[]]. exists country, code, (r :: rows).
    repeat split; [assumption|assumption|discriminate].
  - intros [country [code [rows [Hin [Hf [Hne ->]]]]]].
    exists (country, code). split; [exact Hin|]. cbn [fst snd]. rewrite Hf.
    destruct rows; [congruence|now left].
Qed.

(** X1: a returned aggregate holds exactly the fetched rows, each under the
    country of its mapping entry: an observation is in the frame exactly when
    some entry (country, code) of the mapping has a fetched row with its date
    and value, and the observation carries that country. *)
Theorem aggregate_rows_tagged (fetch : string -> fetched)
  (items : list (string * string)) (col_name : string)
  (tr : list event) (df : DataFrame) (o : Observation) :
  run (fetch_and_prepare_data fetch items col_name) = (tr, inr df) ->
  (In o df
   <-> exists country code rows,
         In (country, code) items /\ fetch code = Frame rows
         /\ In (Date o, Value o) rows /\ Country o = country).
Proof.
  intros Hrun.
  destruct (aggregate_success fetch items col_name tr df Hrun)
    as [_ [_ [-> _]]].
  rewrite in_concat. split.
  - intros [frame [Hf Ho]].
    apply in_kept_frames in Hf as [country [code [rows [Hin [Hfe [_ ->]]]]]].
    unfold tag in Ho. apply in_map_iff in Ho as [[d v] [<- Hpv]].
    exists country, code, rows. cbn. repeat split; assumption.
  - intros [country [code [rows [Hin [Hfe [Hpv Hc]]]]]].
    exists (tag country rows). split.
    + apply in_kept_frames. exists country, code, rows.
      repeat split; try assumption. intros ->. contradiction.
    + unfold tag. apply in_map_iff. exists (Date o, Value o).
      split; [|exact Hpv]. destruct o as [c d v]. cbn in *. now subst.
Qed.

(** X2: a returned aggregate is never empty, comes after one fetch per entry
    of the mapping, in the order of the mapping, and is the concatenation of
    the non-empty frames in that order. *)
Theorem aggregate_nonempty (fetch : string -> fetched)
  (items : list (string * string)) (col_name : string)
  (tr : list event) (df : DataFrame) :
  run (fetch_and_prepare_data fetch items col_name) = (tr, inr df) ->
  df <> []
  /\ tr = map (fun item => Fetch (snd item)) items
  /\ df = List.concat (kept_frames fetch items).
Proof.
  intros Hrun.
  destruct (aggregate_success fetch items col_name tr df Hrun)
    as [_ [Hk [-> ->]]].
  split; [|split; reflexivity].
  destruct (kept_frames fetch items) as [|f fs] eqn:Ek; [congruence|].
  assert (Hf : f <> []).
  { apply (kept_frames_nonempty fetch items). rewrite Ek. now left. }
  cbn [List.concat]. destruct f; [congruence|discriminate].
Qed.

Lemma example_aggregate :
  run (fetch_and_prepare_data provider_a_empty
         [("A", "a"); ("B", "b"); ("C", "c")] "GDP Growth Rate (%)")
  = ([Fetch "a"; Fetch "b"; Fetch "c"],
     inr [mkObs "B" "2020" 3; mkObs "C" "2020" 3]).
Proof. reflexivity. Qed.

Lemma aggregate_rows_tagged_witness :
  run (fetch_and_prepare_data provider_a_empty
         [("A", "a"); ("B", "b"); ("C", "c")] "GDP Growth Rate (%)")
  = ([Fetch "a"; Fetch "b"; Fetch "c"],
     inr [mkObs "B" "2020" 3; mkObs "C" "2020" 3])
  /\ (In (mkObs "B" "2020" 3) [mkObs "B" "2020" 3; mkObs "C" "2020" 3]
      <-> exists country code rows,
            In (country, code) [("A", "a"); ("B", "b"); ("C", "c")]
            /\ provider_a_empty code = Frame rows
            /\ In (Date (mkObs "B" "2020" 3), Value (mkObs "B" "2020" 3)) rows
            /\ Country (mkObs "B" "2020" 3) = country).
Proof.
  split; [exact example_aggregate|].
  exact (aggregate_rows_tagged provider_a_empty
           [("A", "a"); ("B", "b"); ("C", "c")] "GDP Growth Rate (%)"
           _ _ (mkObs "B" "2020" 3) example_aggregate).
Defined.

Lemma aggregate_nonempty_witness :
  run (fetch_and_prepare_data provider_a_empty
         [("A", "a"); ("B", "b"); ("C", "c")] "GDP Growth Rate (%)")
  = ([Fetch "a"; Fetch "b"; Fetch "c"],
     inr [mkObs "B" "2020" 3; mkObs "C" "2020" 3])
  /\ [mkObs "B" "2020" 3; mkObs "C" "2020" 3] <> []
  /\ [Fetch "a"; Fetch "b"; Fetch "c"]
     = map (fun item => Fetch (snd item)) [("A", "a"); ("B", "b"); ("C", "c")]
  /\ [mkObs "B" "2020" 3; mkObs "C" "2020" 3]
     = List.concat (kept_frames provider_a_empty
                      [("A", "a"); ("B", "b"); ("C", "c")]).
Proof.
  split; [exact example_aggregate|].
  exact (aggregate_nonempty provider_a_empty
           [("A", "a"); ("B", "b"); ("C", "c")] "GDP Growth Rate (%)"
           _ _ example_aggregate).
Defined.

(** X3: when every fetch of the mapping is empty, and so for the empty
    mapping, the aggregation raises [ValueError] after fetching every
    entry. *)
Theorem aggregate_all_empty_raises (fetch : string -> fetched)
  (items : list (string * string)) (col_name : string) :
  (forall item, In item items -> fetch (snd item) = Frame []) ->
  run (fetch_and_prepare_data fetch items col_name)
  = (map (fun item => Fetch (snd item)) items,
     inl (ValueError "No objects to concatenate")).
Proof.
  intros Hall. unfold run, fetch_and_prepare_data, bind.
  assert (Hok : no_failure fetch items)
    by (intros it Hit; rewrite (Hall it Hit); discriminate).
  rewrite (fetch_loop_no_failure fetch items Hok). cbn [app].
  assert (kept_frames fetch items = []) as ->; [|reflexivity].
  destruct (kept_frames fetch items) as [|f fs] eqn:Ek; [reflexivity|].
  assert (Hin : In f (kept_frames fetch items)) by (rewrite Ek; now left).
  apply in_kept_frames in Hin as [c [code [rows [Hi [Hf [Hne _]]]]]].
  pose proof (Hall (c, code) Hi) as He. cbn [snd] in He. congruence.
Qed.

Lemma aggregate_all_empty_raises_witness :
  (forall item, In item [("A", "a")] -> provider_a_empty (snd item) = Frame [])
  /\ run (fetch_and_prepare_data provider_a_empty [("A", "a")]
            "GDP Growth Rate (%)")
     = (map (fun item => Fetch (snd item)) [("A", "a")],
        inl (ValueError "No objects to concatenate")).
Proof.
  assert (H : forall item, In item [("A", "a")] ->
                           provider_a_empty (snd item) = Frame [])
    by (intros item [<-|[]]; reflexivity).
  split; [exact H|].
  exact (aggregate_all_empty_raises provider_a_empty [("A", "a")]
           "GDP Growth Rate (%)" H).
Defined.

(** ** The warning of the first page *)

Lemma quiet_ret {A} (a : A) : quiet (ret a).
Proof. intros tr H. exact H. Qed.

Lemma quiet_raise {A} (e : exn) : quiet (@raise A e).
Proof. intros tr H. exact H. Qed.

Lemma quiet_emit ev : no_warning ev -> quiet (emit ev).
Proof.
  intros Hev tr H. unfold emit. cbn [fst]. apply Forall_app.
  split; [exact H|]. constructor; [exact Hev|constructor].
Qed.

Lemma quiet_bind_post {A B} (m : M A) (k : A -> M B) (Q : A -> Prop) :
  quiet m ->
  (forall tr tr' a, m tr = (tr', inr a) -> Q a) ->
  (forall a, Q a -> quiet (k a)) ->
  quiet (bind m k).
Proof.
  intros Hm Hpost Hk tr Htr. unfold bind.
  pose proof (Hm tr Htr) as Hm'.
  destruct (m tr) as [tr' [e|a]] eqn:E; cbn [fst] in *; [exact Hm'|].
  apply (Hk a); [|exact Hm']. exact (Hpost tr tr' a E).
Qed.

Lemma quiet_bind {A B} (m : M A) (k : A -> M B) :
  quiet m -> (forall a, quiet (k a)) -> quiet (bind m k).
Proof.
  intros Hm Hk. apply (quiet_bind_post m k (fun _ => True)); auto.
Qed.

Lemma quiet_for_each {A} (xs : list A) (body : A -> M unit) :
  (forall x, quiet (body x)) -> quiet (for_each xs body).
Proof.
  intros Hb. induction xs as [|x xs IH]; cbn [for_each].
  - apply quiet_ret.
  - apply quiet_bind; [apply Hb|intros _; exact IH].
Qed.

Lemma silent_quiet {A} (m : M A) : silent m -> quiet m.
Proof. intros Hs tr H. now rewrite Hs. Qed.

Lemma silent_dict_get d k : silent (dict_get d k).
Proof.
  intros tr. induction d as [|[k' v] d IH]; cbn [dict_get]; [reflexivity|].
  destruct (k' =? k)%string; [reflexivity|exact IH].
Qed.

Lemma silent_dict_comprehension series selected :
  forall acc, silent (dict_comprehension series selected acc).
Proof.
  induction selected as [|c rest IH]; intros acc tr;
    cbn [dict_comprehension]; [reflexivity|].
  unfold bind. pose proof (silent_dict_get series c tr) as Hg.
  destruct (dict_get series c tr) as [tr' [e|code]]; cbn [fst] in Hg; subst.
  - reflexivity.
  - apply IH.
Qed.

Lemma silent_corr_value_of s c : silent (corr_value_of s c).
Proof.
  intros tr. unfold corr_value_of, loc, bind.
  destruct (filter _ s) as [|e sel]; reflexivity.
Qed.

Lemma silent_OLS_fit y X : silent (OLS_fit y X).
Proof.
  intros tr. unfold OLS_fit.
  destruct X as [xs|xs]; destruct (List.length (combine xs y) =? 0)%nat;
    reflexivity.
Qed.

Lemma quiet_fetch_loop fetch items :
  forall dfs, quiet (fetch_loop fetch items dfs).
Proof.
  induction items as [|[country code] rest IH]; intros dfs;
    cbn [fetch_loop]; [apply quiet_ret|].
  apply quiet_bind.
  - unfold call_fetch. apply quiet_bind; [now apply quiet_emit|].
    intros _. destruct (fetch code); [apply quiet_ret|apply quiet_raise].
  - intros df. destruct (negb (empty df)); apply IH.
Qed.

Lemma quiet_fetch_and_prepare_data fetch items col_name :
  quiet (fetch_and_prepare_data fetch items col_name).
Proof.
  unfold fetch_and_prepare_data. apply quiet_bind.
  - apply quiet_fetch_loop.
  - intros dfs. destruct dfs; [apply quiet_raise|apply quiet_ret].
Qed.

(** A frame that the aggregation returns has a row, whatever the trace it
    starts from. *)
Lemma aggregate_result_nonempty fetch items col_name tr tr' df :
  fetch_and_prepare_data fetch items col_name tr = (tr', inr df) -> df <> [].
Proof.
  unfold fetch_and_prepare_data, bind. intros Hrun.
  destruct (fetch_loop fetch items [] tr) as [tr0 [e|dfs]] eqn:El;
    [discriminate|].
  pose proof (fetch_loop_success fetch items [] tr tr0 dfs El) as Hok.
  rewrite (fetch_loop_no_failure fetch items Hok) in El. cbn [app] in El.
  injection El as _ <-.
  destruct (kept_frames fetch items) as [|f fs] eqn:Ek; [discriminate|].
  cbn [pd_concat ret] in Hrun. injection Hrun as _ <-.
  assert (Hf : f <> []).
  { apply (kept_frames_nonempty fetch items). rewrite Ek. now left. }
  cbn [List.concat]. destruct f; [congruence|discriminate].
Qed.

Lemma fetch_both_frames fetch selected_countries tr tr' dfs :
  fetch_both fetch selected_countries tr = (tr', inr dfs) ->
  fst dfs <> [] /\ snd dfs <> [].
Proof.
  unfold fetch_both, bind. intros Hrun.
  destruct (dict_comprehension gdp_series selected_countries [] tr)
    as [t1 [e|gdp_codes]]; [discriminate|].
  destruct (fetch_and_prepare_data fetch gdp_codes (label GDP_Growth_Rate) t1)
    as [t2 [e|df_gdp]] eqn:Eg; [discriminate|].
  destruct (dict_comprehension tb_series selected_countries [] t2)
    as [t3 [e|tb_codes]]; [discriminate|].
  destruct (fetch_and_prepare_data fetch tb_codes (label Trade_Balance) t3)
    as [t4 [e|df_tb]] eqn:Et; [discriminate|].
  cbn [ret] in Hrun. injection Hrun as _ <-. cbn [fst snd]. split.
  - exact (aggregate_result_nonempty _ _ _ _ _ _ Eg).
  - exact (aggregate_result_nonempty _ _ _ _ _ _ Et).
Qed.

Lemma quiet_fetch_both fetch selected_countries :
  quiet (fetch_both fetch selected_countries).
Proof.
  unfold fetch_both.
  apply quiet_bind; [apply silent_quiet, silent_dict_comprehension|].
  intros gdp_codes.
  apply quiet_bind; [apply quiet_fetch_and_prepare_data|]. intros df_gdp.
  apply quiet_bind; [apply silent_quiet, silent_dict_comprehension|].
  intros tb_codes.
  apply quiet_bind; [apply quiet_fetch_and_prepare_data|]. intros df_tb.
  apply quiet_ret.
Qed.

Lemma quiet_write_correlations correlations selected_countries :
  quiet (write_correlations correlations selected_countries).
Proof.
  unfold write_correlations. apply quiet_for_each. intros country.
  apply quiet_bind; [apply silent_quiet, silent_corr_value_of|].
  intros v. now apply quiet_emit.
Qed.

Lemma quiet_write_regressions correlation_df selected_countries :
  quiet (write_regressions correlation_df selected_countries).
Proof.
  unfold write_regressions. apply quiet_for_each. intros country.
  apply quiet_bind; [apply silent_quiet; unfold regress_country;
                     apply silent_OLS_fit|].
  intros model. now apply quiet_emit.
Qed.

Lemma quiet_main fetch selected selected_countries :
  quiet (main fetch selected selected_countries).
Proof.
  unfold main. apply quiet_bind; [|intros _; apply quiet_bind;
                                   [|intros _; apply quiet_bind]].
  - destruct (selected =? "GDP Growth Rate & Trade Balance")%string;
      [|apply quiet_ret].
    apply (quiet_bind_post _ _ (fun dfs => fst dfs <> [] /\ snd dfs <> [])).
    + apply quiet_fetch_both.
    + intros tr tr' dfs. apply fetch_both_frames.
    + intros [df_gdp df_tb] [Hg Ht]. cbn [fst snd] in *.
      destruct df_gdp; [congruence|]. destruct df_tb; [congruence|].
      cbn [empty orb].
      apply quiet_bind; [now apply quiet_emit|intros _; now apply quiet_emit].
  - destruct (selected =? "Regression Analysis")%string; [|apply quiet_ret].
    apply quiet_bind; [apply quiet_fetch_both|]. intros dfs. cbv zeta.
    apply quiet_bind; [apply quiet_write_correlations|].
    intros _. apply quiet_write_regressions.
  - destruct (selected =? "Sources")%string; apply quiet_ret.
  - intros _. now apply quiet_emit.
Qed.

(** X4: no run of the statements of [main] shows the warning "No data
    available for the selected countries.": the frames tested by the guard of
    the first page come from the aggregation, which returns a frame with a
    row or raises. *)
Theorem main_never_warns (fetch : string -> fetched)
  (selected : string) (selected_countries : list string) (msg : string) :
  ~ In (StWarning msg) (fst (run (main fetch selected selected_countries))).
Proof.
  intros Hin.
  pose proof (quiet_main fetch selected selected_countries []
                (Forall_nil _)) as Hq.
  rewrite Forall_forall in Hq. exact (Hq _ Hin).
Qed.

(** ** The mapping built from the selected countries *)

Lemma dict_set_fresh acc c code :
  ~ In c (map fst acc) -> dict_set acc c code = acc ++ [(c, code)].
Proof.
  induction acc as [|[k v] acc IH]; cbn; intros Hout; [reflexivity|].
  destruct (k =? c)%string eqn:E.
  - apply String.eqb_eq in E. elim Hout. now left.
  - rewrite IH; [reflexivity|]. intros Hin. apply Hout. now right.
Qed.

Lemma dict_get_present series c tr :
  In c (map fst series) ->
  exists code, dict_get series c tr = (tr, inr code) /\ In (c, code) series.
Proof.
  induction series as [|[k v] series IH]; cbn; [tauto|]. intros Hin.
  destruct (k =? c)%string eqn:E.
  - apply String.eqb_eq in E. subst. exists v. split; [reflexivity|now left].
  - apply String.eqb_neq in E. destruct Hin as [Hk|Hin]; [congruence|].
    destruct (IH Hin) as [code [Hg Hc]]. exists code. split; [exact Hg|now right].
Qed.

Lemma dict_get_missing series c tr :
  ~ In c (map fst series) -> dict_get series c tr = (tr, inl (KeyError c)).
Proof.
  induction series as [|[k v] series IH]; cbn; intros Hout; [reflexivity|].
  destruct (k =? c)%string eqn:E.
  - apply String.eqb_eq in E. elim Hout. now left.
  - apply IH. intros Hin. apply Hout. now right.
Qed.

Lemma dict_comprehension_from series selected :
  forall acc tr,
    NoDup (map fst acc ++ selected) ->
    incl selected (map fst series) ->
    exists items,
      dict_comprehension series selected acc tr = (tr, inr (acc ++ items))
      /\ map fst items = selected /\ incl items series.
Proof.
  induction selected as [|c rest IH]; intros acc tr Hnd Hincl.
  - exists []. cbn. rewrite app_nil_r. repeat split. intros x [].
  - cbn [dict_comprehension]. unfold bind.
    destruct (dict_get_present series c tr (Hincl c (or_introl eq_refl)))
      as [code [Hg Hc]].
    rewrite Hg.
    assert (Hfresh : ~ In c (map fst acc)).
    { intros Hin. apply NoDup_remove_2 in Hnd. apply Hnd.
      apply in_or_app. now left. }
    rewrite (dict_set_fresh acc c code Hfresh).
    destruct (IH (acc ++ [(c, code)]) tr) as [items [Hrun [Hk Hi]]].
    + rewrite map_app. cbn [map fst]. rewrite <- app_assoc. exact Hnd.
    + intros x Hx. apply Hincl. now right.
    + exists ((c, code) :: items). rewrite Hrun, <- app_assoc.
      split; [reflexivity|]. split; [cbn; now rewrite Hk|].
      intros x [<-|Hx]; [exact Hc|now apply Hi].
Qed.

(** X5: for selected countries of the catalog, without repetition, the
    mapping handed to the aggregator lists the selected countries in the
    order of the selection, each with a code the catalog has for it, and the
    trace is untouched. *)
Theorem selection_mapping (series : list (string * string))
  (selected_countries : list string) :
  NoDup selected_countries ->
  incl selected_countries (map fst series) ->
  exists items,
    run (dict_comprehension series selected_countries []) = ([], inr items)
    /\ map fst items = selected_countries
    /\ incl items series.
Proof.
  intros Hnd Hincl.
  destruct (dict_comprehension_from series selected_countries [] []
              Hnd Hincl) as [items H].
  exists items. exact H.
Qed.

Lemma selection_mapping_witness :
  NoDup ["Japan"; "USA"]
  /\ incl ["Japan"; "USA"] (map fst gdp_series)
  /\ exists items,
       run (dict_comprehension gdp_series ["Japan"; "USA"] [])
       = ([], inr items)
       /\ map fst items = ["Japan"; "USA"]
       /\ incl items gdp_series.
Proof.
  assert (Hnd : NoDup ["Japan"; "USA"])
    by (repeat constructor; cbn; intuition discriminate).
  assert (Hincl : incl ["Japan"; "USA"] (map fst gdp_series))
    by (intros x [<-|[<-|[]]]; cbn; tauto).
  split; [exact Hnd|]. split; [exact Hincl|].
  exact (selection_mapping gdp_series ["Japan"; "USA"] Hnd Hincl).
Defined.

Lemma dict_comprehension_missing series pre c post :
  forall acc tr,
    incl pre (map fst series) ->
    ~ In c (map fst series) ->
    dict_comprehension series (pre ++ c :: post) acc tr
    = (tr, inl (KeyError c)).
Proof.
  induction pre as [|p pre IH]; intros acc tr Hincl Hout.
  - cbn [app dict_comprehension]. unfold bind.
    now rewrite (dict_get_missing series c tr Hout).
  - cbn [app dict_comprehension]. unfold bind.
    destruct (dict_get_present series p tr (Hincl p (or_introl eq_refl)))
      as [code [Hg _]].
    rewrite Hg. apply IH; [|exact Hout].
    intros x Hx. apply Hincl. now right.
Qed.

(** X6: the first selected country that the catalog does not have ends the
    construction of the mapping with [KeyError] of that country. *)
Theorem selection_missing_key (series : list (string * string))
  (pre post : list string) (c : string) :
  incl pre (map fst series) ->
  ~ In c (map fst series) ->
  run (dict_comprehension series (pre ++ c :: post) [])
  = ([], inl (KeyError c)).
Proof.
  intros Hincl Hout. unfold run.
  apply dict_comprehension_missing; assumption.
Qed.

Lemma selection_missing_key_witness :
  incl ["USA"] (map fst gdp_series)
  /\ ~ In "Italy" (map fst gdp_series)
  /\ run (dict_comprehension gdp_series (["USA"] ++ "Italy" :: ["Japan"]) [])
     = ([], inl (KeyError "Italy")).
Proof.
  assert (Hincl : incl ["USA"] (map fst gdp_series))
    by (intros x [<-|[]]; cbn; tauto).
  assert (Hout : ~ In "Italy" (map fst gdp_series))
    by (cbn; intuition discriminate).
  split; [exact Hincl|]. split; [exact Hout|].
  exact (selection_missing_key gdp_series ["USA"] ["Japan"] "Italy"
           Hincl Hout).
Defined.

(** ** The loop of the correlation tab *)

Lemma write_correlations_from df pre :
  forall tr rest,
    (forall c, In c pre -> In c (map jCountry df)) ->
    write_correlations (correlations_of df) (pre ++ rest) tr
    = write_correlations (correlations_of df) rest
        (tr ++ map (fun c => StWriteCorr c
                               (nancorr (xy_rows (get_group c df)))) pre).
Proof.
  unfold write_correlations.
  induction pre as [|c pre IH]; intros tr rest Hall.
  - cbn. now rewrite app_nil_r.
  - cbn [app for_each map]. unfold bind at 1. unfold bind at 1.
    rewrite (corr_value_present df c tr (Hall c (or_introl eq_refl))).
    unfold emit. rewrite IH by (intros x Hx; apply Hall; now right).
    now rewrite <- app_assoc.
Qed.

(** X7: when every selected country has a joined row, the loop writes one
    coefficient per selected country, in the order of the selection, each
    being the Pearson value of the rows of that country, and raises
    nothing. *)
Theorem write_correlations_complete (df : list JoinedRecord)
  (selected_countries : list string) :
  (forall c, In c selected_countries -> In c (map jCountry df)) ->
  run (write_correlations (correlations_of df) selected_countries)
  = (map (fun c => StWriteCorr c (nancorr (xy_rows (get_group c df))))
         selected_countries,
     inr tt).
Proof.
  intros Hall. unfold run.
  rewrite <- (app_nil_r selected_countries) at 1.
  rewrite (write_correlations_from df selected_countries [] [] Hall).
  reflexivity.
Qed.

(** X8: the first selected country without a joined row ends the loop with
    [KeyError] of that country; the coefficients of the countries before it
    have been written, those of the countries after it are not. *)
Theorem write_correlations_stops (df : list JoinedRecord)
  (pre post : list string) (c : string) :
  (forall p, In p pre -> In p (map jCountry df)) ->
  ~ In c (map jCountry df) ->
  run (write_correlations (correlations_of df) (pre ++ c :: post))
  = (map (fun p => StWriteCorr p (nancorr (xy_rows (get_group p df)))) pre,
     inl (KeyError c)).
Proof.
  intros Hall Hout. unfold run.
  rewrite (write_correlations_from df pre [] (c :: post) Hall).
  unfold write_correlations. cbn [for_each app]. unfold bind at 1.
  unfold bind at 1. now rewrite (corr_value_absent df c _ Hout).
Qed.

Lemma example_joined_countries :
  map jCountry (pd_merge indicator_1 indicator_2) = ["A"; "A"].
Proof. reflexivity. Qed.

Lemma write_correlations_complete_witness :
  (forall c, In c ["A"] ->
             In c (map jCountry (pd_merge indicator_1 indicator_2)))
  /\ run (write_correlations
            (correlations_of (pd_merge indicator_1 indicator_2)) ["A"])
     = (map (fun c => StWriteCorr c
                        (nancorr (xy_rows
                           (get_group c (pd_merge indicator_1 indicator_2)))))
            ["A"],
        inr tt).
Proof.
  assert (H : forall c, In c ["A"] ->
                In c (map jCountry (pd_merge indicator_1 indicator_2)))
    by (intros c [<-|[]]; rewrite example_joined_countries; now left).
  split; [exact H|].
  exact (write_correlations_complete (pd_merge indicator_1 indicator_2)
           ["A"] H).
Defined.

Lemma write_correlations_stops_witness :
  (forall p, In p ["A"] ->
             In p (map jCountry (pd_merge indicator_1 indicator_2)))
  /\ ~ In "B" (map jCountry (pd_merge indicator_1 indicator_2))
  /\ run (write_correlations
            (correlations_of (pd_merge indicator_1 indicator_2))
            (["A"] ++ "B" :: ["C"]))
     = (map (fun p => StWriteCorr p
                        (nancorr (xy_rows
                           (get_group p (pd_merge indicator_1 indicator_2)))))
            ["A"],
        inl (KeyError "B")).
Proof.
  assert (H : forall p, In p ["A"] ->
                In p (map jCountry (pd_merge indicator_1 indicator_2)))
    by (intros c [<-|[]]; rewrite example_joined_countries; now left).
  assert (Hout : ~ In "B" (map jCountry (pd_merge indicator_1 indicator_2)))
    by (rewrite example_joined_countries; cbn; intuition discriminate).
  split; [exact H|]. split; [exact Hout|].
  exact (write_correlations_stops (pd_merge indicator_1 indicator_2)
           ["A"] ["C"] "B" H Hout).
Defined.

(** ** The entries of the correlation series *)

(** X9: the selection [.iloc[0::2]["Trade Balance (% of GDP)"]] keeps one
    kind of entry only: for each country with a joined row, the entry of the
    row (country, GDP growth), whose value is the Pearson coefficient of GDP
    growth against trade balance over the rows of that country; the diagonal
    entries of the correlation matrices are not in the series. *)
Theorem correlations_entries (df : list JoinedRecord)
  (c : string) (col : column) (v : pyfloat) :
  In ((c, col), v) (correlations_of df)
  <-> In c (map jCountry df)
      /\ col = GDP_Growth_Rate
      /\ v = nancorr (xy_rows (get_group c df)).
Proof.
  rewrite correlations_of_groups, in_map_iff. split.
  - intros [k [Hk Hin]]. injection Hk as <- <- <-.
    split; [now apply in_group_keys|]. split; reflexivity.
  - intros [Hin [-> ->]]. exists c. split; [reflexivity|].
    now apply in_group_keys.
Qed.

Lemma string_lt_trans a b c : string_lt a b -> string_lt b c -> string_lt a c.
Proof.
  unfold string_lt. intros H1 H2.
  apply String_as_OT.cmp_lt in H1. apply String_as_OT.cmp_lt in H2.
  apply String_as_OT.cmp_lt. exact (String_as_OT.lt_trans _ _ _ H1 H2).
Qed.

Lemma string_lt_irrefl a : ~ string_lt a a.
Proof.
  unfold string_lt. intros H.
  assert (E : String.compare a a = Eq) by now apply String_as_OT.cmp_eq.
  congruence.
Qed.

Lemma insert_key_hd a k ks :
  HdRel string_lt a ks -> string_lt a k -> HdRel string_lt a (insert_key k ks).
Proof.
  intros Hhd Hak. destruct ks as [|k' ks]; cbn.
  - now constructor.
  - destruct (String.compare k k'); [exact Hhd|now constructor|].
    inversion Hhd; subst. now constructor.
Qed.

Lemma insert_key_sorted k ks :
  Sorted string_lt ks -> Sorted string_lt (insert_key k ks).
Proof.
  induction 1 as [|k' ks Hs IH Hhd]; cbn.
  - repeat constructor.
  - destruct (String.compare k k') eqn:E.
    + now constructor.
    + constructor; [now constructor|]. constructor. exact E.
    + constructor; [exact IH|]. apply insert_key_hd; [exact Hhd|].
      unfold string_lt. rewrite String.compare_antisym, E. reflexivity.
Qed.

Lemma group_keys_sorted df : Sorted string_lt (group_keys df).
Proof.
  unfold group_keys. induction (map jCountry df) as [|k ks IH]; cbn.
  - constructor.
  - now apply insert_key_sorted.
Qed.

Lemma strongly_sorted_nodup ks : StronglySorted string_lt ks -> NoDup ks.
Proof.
  induction 1 as [|k ks _ IH Hall]; constructor; [|exact IH].
  intros Hin. rewrite Forall_forall in Hall.
  exact (string_lt_irrefl k (Hall k Hin)).
Qed.

(** X10: the correlation series lists its countries in strictly increasing
    lexicographic order, so each joined country has exactly one entry,
    whatever the order of the rows of the two frames. *)
Theorem correlations_sorted (A B : DataFrame) :
  StronglySorted string_lt (entities (correlate A B))
  /\ NoDup (entities (correlate A B)).
Proof.
  unfold correlate.
  assert (Hs : StronglySorted string_lt
                 (entities (correlations_of (pd_merge A B)))).
  { rewrite entities_correlations_of. apply Sorted_StronglySorted.
    - intros a b c. apply string_lt_trans.
    - apply group_keys_sorted. }
  split; [exact Hs|]. now apply strongly_sorted_nodup.
Qed.

(** ** Unique keys through the join *)

Lemma same_key_key a b : same_key a b = true <-> key a = key b.
Proof.
  rewrite same_key_true. unfold key. split.
  - intros [-> ->]. reflexivity.
  - intros [= -> ->]. split; reflexivity.
Qed.

Lemma filter_same_key_unique B a :
  NoDup (map key B) -> (List.length (filter (same_key a) B) <= 1)%nat.
Proof.
  induction B as [|b B IH]; cbn [map filter]; intros Hnd; [cbn; lia|].
  inversion Hnd as [|k ks Hout Hnd']; subst.
  destruct (same_key a b) eqn:E; [|now apply IH].
  assert (Hnone : filter (same_key a) B = []).
  { destruct (filter (same_key a) B) as [|b' rest] eqn:Ef; [reflexivity|].
    exfalso. assert (Hb' : In b' (filter (same_key a) B))
      by (rewrite Ef; now left).
    apply filter_In in Hb' as [Hin Hk]. apply Hout.
    apply same_key_key in E. apply same_key_key in Hk.
    rewrite <- E, Hk. now apply in_map. }
  rewrite Hnone. cbn. lia.
Qed.

Lemma pd_merge_cons a A B :
  pd_merge (a :: A) B
  = map (fun b => mkJoined (Country a) (Date a) (Value a) (Value b))
        (filter (same_key a) B)
    ++ pd_merge A B.
Proof. reflexivity. Qed.

Lemma jkey_of_merge A B r :
  In r (pd_merge A B) -> In (jkey r) (map key A).
Proof.
  intros Hr. apply in_pd_merge in Hr as [a [b [Ha [_ [_ ->]]]]].
  unfold jkey. cbn. change (Country a, Date a) with (key a). now apply in_map.
Qed.

Lemma pd_merge_length_left A B :
  NoDup (map key B) -> (List.length (pd_merge A B) <= List.length A)%nat.
Proof.
  intros Hnd. induction A as [|a A IH]; [cbn; lia|].
  rewrite pd_merge_cons, length_app, length_map. cbn [List.length].
  pose proof (filter_same_key_unique B a Hnd). lia.
Qed.

(** X11: the join keeps the invariant of the aligned series. When neither
    frame repeats a (country, date) key, no key is repeated in the joined
    frame, and the joined frame has no more rows than either input. *)
Theorem pd_merge_unique_keys (A B : DataFrame) :
  NoDup (map key A) -> NoDup (map key B) ->
  NoDup (map jkey (pd_merge A B))
  /\ (List.length (pd_merge A B) <= List.length A)%nat
  /\ (List.length (pd_merge A B) <= List.length B)%nat.
Proof.
  intros HA HB. split; [|split].
  - induction A as [|a A IH]; [constructor|].
    inversion HA as [|k ks Hout HA']; subst.
    rewrite pd_merge_cons, map_app.
    pose proof (filter_same_key_unique B a HB) as Hlen.
    destruct (filter (same_key a) B) as [|b [|b' rest]];
      cbn [List.length] in Hlen; [now apply IH| |lia].
    cbn [map app]. constructor; [|now apply IH].
    intros Hin. apply in_map_iff in Hin as [r [Hk Hr]].
    apply Hout. unfold jkey at 2 in Hk. cbn in Hk.
    change (Country a, Date a) with (key a) in Hk. rewrite <- Hk.
    now apply (jkey_of_merge A B).
  - now apply pd_merge_length_left.
  - rewrite <- (length_map swap_roles (pd_merge A B)).
    rewrite <- (Permutation_length (pd_merge_swap A B)).
    now apply pd_merge_length_left.
Qed.

Lemma example_keys_nodup_2 : NoDup (map key indicator_2).
Proof. cbn. repeat constructor; cbn; intuition discriminate. Qed.

Lemma pd_merge_unique_keys_witness :
  NoDup (map key indicator_1) /\ NoDup (map key indicator_2)
  /\ NoDup (map jkey (pd_merge indicator_1 indicator_2))
  /\ (List.length (pd_merge indicator_1 indicator_2)
      <= List.length indicator_1)%nat
  /\ (List.length (pd_merge indicator_1 indicator_2)
      <= List.length indicator_2)%nat.
Proof.
  split; [exact example_keys_nodup|]. split; [exact example_keys_nodup_2|].
  exact (pd_merge_unique_keys indicator_1 indicator_2
           example_keys_nodup example_keys_nodup_2).
Defined.

(** ** The fit of full rank *)

(** The fit of full rank, as a value. *)
Lemma regress_country_full_rank df country tr :
  ssqdm (map jx (get_group country df)) <> 0 ->
  regress_country df country tr
  = (tr, inr (ols_model (xy_rows (get_group country df)))).
Proof.
  intros Hv.
  assert (Hne : get_group country df <> [])
    by (intros E; rewrite E in Hv; now apply Hv).
  destruct (regress_country_fits df country tr Hne)
    as [c [s [Hrun [_ [_ [_ Hfull]]]]]].
  destruct (Hfull Hv) as [-> ->].
  rewrite (varying_not_constant _ Hv) in Hrun. rewrite Hrun.
  unfold ols_model. now rewrite xy_rows_snd, xy_rows_length.
Qed.

(** ** From the correlation tab to the regression tab *)

(** X14: a country whose coefficient the correlation tab could look up has
    at least one joined row, so the fit of the regression tab for that
    country receives a non-empty sample and returns a model over all its
    rows. *)
Theorem correlation_then_fit (df : list JoinedRecord) (c : string)
  (tr tr' : list event) (v : pyfloat) :
  corr_value_of (correlations_of df) c tr = (tr', inr v) ->
  exists model,
    run (regress_country df c) = ([], inr model)
    /\ nobs model = List.length (get_group c df)
    /\ (1 <= nobs model)%nat.
Proof.
  intros Hv.
  assert (Hin : In c (map jCountry df)).
  { destruct (in_dec string_dec c (map jCountry df)) as [i|n]; [exact i|].
    rewrite (corr_value_absent df c tr n) in Hv. discriminate. }
  apply get_group_nonempty in Hin.
  destruct (regress_country_fits df c [] Hin) as [c0 [s [Hrun _]]].
  eexists. split; [exact Hrun|]. cbn [nobs]. split; [reflexivity|].
  destruct (get_group c df); [congruence|cbn; lia].
Qed.

Lemma correlation_then_fit_witness :
  corr_value_of (correlations_of noiseless_frame) "A" []
  = ([], inr (nancorr (xy_rows (get_group "A" noiseless_frame))))
  /\ exists model,
       run (regress_country noiseless_frame "A") = ([], inr model)
       /\ nobs model = List.length (get_group "A" noiseless_frame)
       /\ (1 <= nobs model)%nat.
Proof.
  assert (H : corr_value_of (correlations_of noiseless_frame) "A" []
              = ([], inr (nancorr (xy_rows (get_group "A" noiseless_frame))))).
  { apply corr_value_present. cbn. tauto. }
  split; [exact H|].
  exact (correlation_then_fit noiseless_frame "A" [] [] _ H).
Defined.

(** ** The loop of the regression tab *)

Lemma write_regressions_from df selected :
  forall tr,
    (forall c, In c selected -> ssqdm (map jx (get_group c df)) <> 0) ->
    write_regressions df selected tr
    = (tr ++ map (fun c => StWriteSummary c
                             (ols_model (xy_rows (get_group c df)))) selected,
       inr tt).
Proof.
  unfold write_regressions.
  induction selected as [|c rest IH]; intros tr Hall.
  - cbn. now rewrite app_nil_r.
  - cbn [for_each map]. unfold bind at 1. unfold bind at 1.
    rewrite (regress_country_full_rank df c tr (Hall c (or_introl eq_refl))).
    unfold emit. rewrite IH by (intros x Hx; apply Hall; now right).
    now rewrite <- app_assoc.
Qed.

(** X16: when every selected country has three joined rows or more and a
    varying GDP growth, the loop writes one summary per selected country, in
    the order of the selection, each for the model of full rank fitted on the
    rows of that country, and raises nothing. *)
Theorem write_regressions_complete (df : list JoinedRecord)
  (selected_countries : list string) :
  (forall c, In c selected_countries ->
             (3 <= List.length (get_group c df))%nat
             /\ ssqdm (map jx (get_group c df)) <> 0) ->
  run (write_regressions df selected_countries)
  = (map (fun c => StWriteSummary c (ols_model (xy_rows (get_group c df))))
         selected_countries,
     inr tt).
Proof.
  intros Hall. unfold run.
  rewrite (write_regressions_from df selected_countries []); [reflexivity|].
  intros c Hc. exact (proj2 (Hall c Hc)).
Qed.

Lemma write_regressions_complete_witness :
  (forall c, In c ["A"] ->
             (3 <= List.length (get_group c noiseless_frame))%nat
             /\ ssqdm (map jx (get_group c noiseless_frame)) <> 0)
  /\ run (write_regressions noiseless_frame ["A"])
     = (map (fun c => StWriteSummary c
                        (ols_model (xy_rows (get_group c noiseless_frame))))
            ["A"],
        inr tt).
Proof.
  assert (H : forall c, In c ["A"] ->
                (3 <= List.length (get_group c noiseless_frame))%nat
                /\ ssqdm (map jx (get_group c noiseless_frame)) <> 0).
  { intros c [<-|[]]. rewrite noiseless_group. split; [cbn; lia|].
    cbn [map jx noiseless_frame]. rewrite ssqdm_0_1_2. lra. }
  split; [exact H|].
  exact (write_regressions_complete noiseless_frame ["A"] H).
Defined.

(** ** The two aggregations of a page *)

Lemma aggregate_success_from fetch items col_name tr tr' df :
  fetch_and_prepare_data fetch items col_name tr = (tr', inr df) ->
  tr' = tr ++ map (fun item => Fetch (snd item)) items
  /\ df = List.concat (kept_frames fetch items).
Proof.
  unfold fetch_and_prepare_data, bind. intros Hrun.
  destruct (fetch_loop fetch items [] tr) as [tr0 [e|dfs]] eqn:El;
    [discriminate|].
  pose proof (fetch_loop_success fetch items [] tr tr0 dfs El) as Hok.
  rewrite (fetch_loop_no_failure fetch items Hok) in El. cbn [app] in El.
  injection El as <- <-.
  destruct (kept_frames fetch items) as [|f fs] eqn:Ek; [discriminate|].
  cbn [pd_concat ret] in Hrun. injection Hrun as <- <-.
  split; reflexivity.
Qed.

Lemma catalog_keys : map fst tb_series = map fst gdp_series.
Proof. reflexivity. Qed.

(** X17: on a page that gets its two frames, for selected countries of the
    catalog without repetition, every GDP series of the selection is fetched
    before any trade-balance series, each in the order of the selection, and
    the two frames are the concatenations of the non-empty fetched frames. *)
Theorem fetch_both_order (fetch : string -> fetched)
  (selected_countries : list string) (tr : list event)
  (dfs : DataFrame * DataFrame) :
  NoDup selected_countries ->
  incl selected_countries (map fst gdp_series) ->
  run (fetch_both fetch selected_countries) = (tr, inr dfs) ->
  exists gdp_codes tb_codes,
    map fst gdp_codes = selected_countries
    /\ map fst tb_codes = selected_countries
    /\ incl gdp_codes gdp_series
    /\ incl tb_codes tb_series
    /\ tr = map (fun item => Fetch (snd item)) gdp_codes
            ++ map (fun item => Fetch (snd item)) tb_codes
    /\ fst dfs = List.concat (kept_frames fetch gdp_codes)
    /\ snd dfs = List.concat (kept_frames fetch tb_codes).
Proof.
  intros Hnd Hincl. unfold run, fetch_both, bind. intros Hrun.
  destruct (dict_comprehension_from gdp_series selected_countries [] []
              Hnd Hincl) as [gi [Hg [Hgk Hgi]]].
  rewrite Hg in Hrun. cbn [app] in Hrun.
  destruct (fetch_and_prepare_data fetch gi (label GDP_Growth_Rate) [])
    as [t2 [e|df_gdp]] eqn:Eg; [discriminate|].
  destruct (aggregate_success_from _ _ _ _ _ _ Eg) as [-> ->].
  assert (Hincl' : incl selected_countries (map fst tb_series))
    by (rewrite catalog_keys; exact Hincl).
  destruct (dict_comprehension_from tb_series selected_countries []
              ([] ++ map (fun item => Fetch (snd item)) gi) Hnd Hincl')
    as [ti [Ht [Htk Hti]]].
  rewrite Ht in Hrun. cbn [app] in Hrun.
  destruct (fetch_and_prepare_data fetch ti (label Trade_Balance)
              (map (fun item => Fetch (snd item)) gi))
    as [t4 [e|df_tb]] eqn:Et; [discriminate|].
  destruct (aggregate_success_from _ _ _ _ _ _ Et) as [-> ->].
  cbn [ret] in Hrun. injection Hrun as <- <-.
  exists gi, ti. cbn [fst snd]. repeat split; assumption || reflexivity.
Qed.

Lemma example_fetch_both :
  run (fetch_both provider_a_empty ["USA"])
  = ([Fetch "IMF/WEO:2024-04/USA.NGDP_RPCH.pcent_change";
      Fetch "CEPII/CHELEM-TRADE-INDIC/USA.BALGDP.TOTAL.TTGS"],
     inr ([mkObs "USA" "2020" 3], [mkObs "USA" "2020" 3])).
Proof. reflexivity. Qed.

Lemma fetch_both_order_witness :
  NoDup ["USA"]
  /\ incl ["USA"] (map fst gdp_series)
  /\ run (fetch_both provider_a_empty ["USA"])
     = ([Fetch "IMF/WEO:2024-04/USA.NGDP_RPCH.pcent_change";
         Fetch "CEPII/CHELEM-TRADE-INDIC/USA.BALGDP.TOTAL.TTGS"],
        inr ([mkObs "USA" "2020" 3], [mkObs "USA" "2020" 3]))
  /\ exists gdp_codes tb_codes,
       map fst gdp_codes = ["USA"]
       /\ map fst tb_codes = ["USA"]
       /\ incl gdp_codes gdp_series
       /\ incl tb_codes tb_series
       /\ [Fetch "IMF/WEO:2024-04/USA.NGDP_RPCH.pcent_change";
           Fetch "CEPII/CHELEM-TRADE-INDIC/USA.BALGDP.TOTAL.TTGS"]
          = map (fun item => Fetch (snd item)) gdp_codes
            ++ map (fun item => Fetch (snd item)) tb_codes
       /\ fst ([mkObs "USA" "2020" 3], [mkObs "USA" "2020" 3])
          = List.concat (kept_frames provider_a_empty gdp_codes)
       /\ snd ([mkObs "USA" "2020" 3], [mkObs "USA" "2020" 3])
          = List.concat (kept_frames provider_a_empty tb_codes).
Proof.
  assert (Hnd : NoDup ["USA"]) by (repeat constructor; cbn; tauto).
  assert (Hincl : incl ["USA"] (map fst gdp_series))
    by (intros x [<-|[]]; cbn; tauto).
  split; [exact Hnd|]. split; [exact Hincl|].
  split; [exact example_fetch_both|].
  exact (fetch_both_order provider_a_empty ["USA"] _ _ Hnd Hincl
           example_fetch_both).
Defined.
